(** * py-nethack: screen-state extraction and the turn controller

    A shallow embedding of [src/lmj/nethack.py] (a Python 3 program).

    Conventions of the embedding.
    - A Python [str] is the list of its code points and a [bytes] value the
      list of its byte values, both as [list Z]; [chr] and [ord] are then the
      identity.  Literals are written [u "text"].
    - Character classes ([\s], [\d], [\w], [str.isspace], [str.isdigit]) are
      those of CPython 3 on the code points below 256; above that range only
      white space is classified.  Byte patterns use the ASCII classes, as
      [re] does for [bytes].
    - Exceptions are values of [result]; a raised exception drops the state.
    - [logging] calls are dropped, except that the arguments they evaluate
      are evaluated (they can raise).
    - The terminal emulator [ansiterm] is an interface ([Ansiterm]), and the
      two abstract methods of [Player] are the interface [Strategy].
    - The pseudo-terminal is not modelled: what [_drain] reads is an input
      of the loop, and so is what [random.choice] draws. *)

From Stdlib Require Import ZArith String Ascii List Bool Lia Arith.
Import ListNotations.
Open Scope Z_scope.

(** ** Exceptions *)

Inductive exn : Type :=
| ValueError
| IndexError
| AttributeError
| UnicodeDecodeError
| NotImplementedError.

Inductive result (A : Type) : Type :=
| Ok (a : A)
| Raise (e : exn).
Arguments Ok {A} a.
Arguments Raise {A} e.

Definition bind {A B : Type} (m : result A) (f : A -> result B) : result B :=
  match m with
  | Ok a => f a
  | Raise e => Raise e
  end.

Notation "x <- m ;; k" := (bind m (fun x => k))
  (at level 61, m at next level, right associativity).
Notation "' pat <- m ;; k" := (bind m (fun x => match x with pat => k end))
  (at level 61, pat pattern, m at next level, right associativity).

Fixpoint mapM {A B : Type} (f : A -> result B) (l : list A) : result (list B) :=
  match l with
  | [] => Ok []
  | a :: l' => b <- f a ;; bs <- mapM f l' ;; Ok (b :: bs)
  end.

Fixpoint foldM {A S : Type} (f : S -> A -> result S) (l : list A) (s : S)
  : result S :=
  match l with
  | [] => Ok s
  | a :: l' => s' <- f s a ;; foldM f l' s'
  end.

(** ** Text *)

Definition str : Type := list Z.
Definition bytes : Type := list Z.

Definition u (s : string) : list Z :=
  map (fun a => Z.of_N (N_of_ascii a)) (list_ascii_of_string s).

Definition ESC : Z := 27.

Fixpoint str_eqb (a b : list Z) : bool :=
  match a, b with
  | [], [] => true
  | x :: a', y :: b' => (x =? y) && str_eqb a' b'
  | _, _ => false
  end.

Fixpoint startswith (pre s : list Z) : bool :=
  match pre, s with
  | [], _ => true
  | p :: pre', c :: s' => (p =? c) && startswith pre' s'
  | _ :: _, [] => false
  end.

(** [sub in s] *)
Fixpoint contains (sub s : list Z) : bool :=
  startswith sub s ||
  match s with
  | [] => false
  | _ :: s' => contains sub s'
  end.

(** [s.endswith(suf)] *)
Definition endswith (suf s : list Z) : bool :=
  startswith (rev suf) (rev s).

Fixpoint find_from (sub s : list Z) (i : Z) : Z :=
  if startswith sub s then i
  else match s with
       | [] => -1
       | _ :: s' => find_from sub s' (i + 1)
       end.

(** [s.find(sub)]: the lowest index of an occurrence, -1 when there is none. *)
Definition find (sub s : list Z) : Z := find_from sub s 0.

(** [s.split(sep)[0]]: the part of [s] before the first occurrence of a
    non-empty [sep], all of [s] when there is none. *)
Fixpoint split_head (sep s : list Z) : list Z :=
  if startswith sep s then []
  else match s with
       | [] => []
       | c :: s' => c :: split_head sep s'
       end.

Definition in_range (lo hi c : Z) : bool := (lo <=? c) && (c <=? hi).

(** [str.isspace] on one character; also [\s] of a [str] pattern. *)
Definition is_space (c : Z) : bool :=
  in_range 9 13 c || in_range 28 32 c || (c =? 133) || (c =? 160)
  || (c =? 5760) || in_range 8192 8202 c || (c =? 8232) || (c =? 8233)
  || (c =? 8239) || (c =? 8287) || (c =? 12288).

(** [\d] of a [str] pattern: the decimal digits. *)
Definition is_decimal (c : Z) : bool := in_range 48 57 c.

(** [str.isdigit] on one character: the decimal digits and the
    superscripts two, three and one. *)
Definition is_digit (c : Z) : bool :=
  is_decimal c || (c =? 178) || (c =? 179) || (c =? 185).

Definition is_ascii_alnum (c : Z) : bool :=
  in_range 48 57 c || in_range 65 90 c || in_range 97 122 c.

(** [\w] of a [bytes] pattern. *)
Definition is_word_bytes (c : Z) : bool := is_ascii_alnum c || (c =? 95).

(** [\w] of a [str] pattern: [str.isalnum] or the underscore. *)
Definition is_word (c : Z) : bool :=
  is_word_bytes c || (c =? 170) || (c =? 178) || (c =? 179) || (c =? 181)
  || (c =? 185) || (c =? 186) || in_range 188 190 c || in_range 192 214 c
  || in_range 216 246 c || in_range 248 255 c.

Fixpoint dropwhile (p : Z -> bool) (s : list Z) : list Z :=
  match s with
  | [] => []
  | c :: s' => if p c then dropwhile p s' else s
  end.

Definition lstrip (s : str) : str := dropwhile is_space s.
Definition rstrip (s : str) : str := rev (dropwhile is_space (rev s)).

(** [s.strip()] *)
Definition strip (s : str) : str := rstrip (lstrip s).

(** [s.isdigit()] *)
Definition isdigit (s : str) : bool :=
  match s with
  | [] => false
  | _ => forallb is_digit s
  end.

Fixpoint int_digits (s : str) (acc : Z) : result Z :=
  match s with
  | [] => Ok acc
  | c :: s' => if is_decimal c then int_digits s' (10 * acc + (c - 48))
               else Raise ValueError
  end.

(** [int(s)] for a text without surrounding white space: an optional sign
    and decimal digits. *)
Definition py_int (s : str) : result Z :=
  match s with
  | [] => Raise ValueError
  | c :: s' =>
      if c =? 43 then match s' with [] => Raise ValueError | _ => int_digits s' 0 end
      else if c =? 45 then
        match s' with [] => Raise ValueError | _ => n <- int_digits s' 0 ;; Ok (- n) end
      else int_digits s 0
  end.

(** [b.decode('utf-8')], strict. *)
Definition is_cont (b : Z) : bool := in_range 128 191 b.

Fixpoint decode_utf8 (b : bytes) : result str :=
  match b with
  | [] => Ok []
  | b0 :: r =>
      if b0 <? 128 then (s <- decode_utf8 r ;; Ok (b0 :: s))
      else if in_range 194 223 b0 then
        match r with
        | b1 :: r1 =>
            if is_cont b1
            then s <- decode_utf8 r1 ;; Ok (((b0 - 192) * 64 + (b1 - 128)) :: s)
            else Raise UnicodeDecodeError
        | _ => Raise UnicodeDecodeError
        end
      else if in_range 224 239 b0 then
        match r with
        | b1 :: b2 :: r2 =>
            if in_range (if b0 =? 224 then 160 else 128)
                        (if b0 =? 237 then 159 else 191) b1 && is_cont b2
            then s <- decode_utf8 r2 ;;
                 Ok (((b0 - 224) * 4096 + (b1 - 128) * 64 + (b2 - 128)) :: s)
            else Raise UnicodeDecodeError
        | _ => Raise UnicodeDecodeError
        end
      else if in_range 240 244 b0 then
        match r with
        | b1 :: b2 :: b3 :: r3 =>
            if in_range (if b0 =? 240 then 144 else 128)
                        (if b0 =? 244 then 143 else 191) b1
               && is_cont b2 && is_cont b3
            then s <- decode_utf8 r3 ;;
                 Ok (((b0 - 240) * 262144 + (b1 - 128) * 4096
                      + (b2 - 128) * 64 + (b3 - 128)) :: s)
            else Raise UnicodeDecodeError
        | _ => Raise UnicodeDecodeError
        end
      else Raise UnicodeDecodeError
  end.

(** ** Regular expressions

    The fragment of [re] the program uses, with the backtracking order of
    [re]: alternatives left to right, greedy repetition longest first, lazy
    repetition shortest first.  Repetition is of one character class, which
    is all the program's patterns repeat. *)

Inductive regex : Type :=
| Eps
| Lit (c : Z)
| Cls (p : Z -> bool)
| Seq (r1 r2 : regex)
| Alt (r1 r2 : regex)
| Grp (name : string) (r : regex)
| Opt (r : regex)
| Star (p : Z -> bool)
| Lazy (p : Z -> bool)
| Bol
| WordB (w : Z -> bool)
| Ahead (r : regex).

Definition Plus (p : Z -> bool) : regex := Seq (Cls p) (Star p).

Fixpoint lit (s : list Z) : regex :=
  match s with
  | [] => Eps
  | [c] => Lit c
  | c :: s' => Seq (Lit c) (lit s')
  end.

Fixpoint seqs (rs : list regex) : regex :=
  match rs with
  | [] => Eps
  | [r] => r
  | r :: rs' => Seq r (seqs rs')
  end.

Fixpoint alts (r : regex) (rs : list regex) : regex :=
  match rs with
  | [] => r
  | r' :: rs' => Alt r (alts r' rs')
  end.

(** A position in the subject: the characters before it, nearest first, the
    characters from it on, and the groups captured so far, latest first. *)
Record mstate : Type := MState {
  before : list Z;
  rest : list Z;
  caps : list (string * list Z)
}.

Definition consumed (st st' : mstate) : list Z :=
  rev (firstn (length (before st') - length (before st)) (before st')).

Definition at_word (w : Z -> bool) (s : list Z) : bool :=
  match s with
  | [] => false
  | c :: _ => w c
  end.

Fixpoint star_greedy {R : Type} (p : Z -> bool) (bef rst : list Z)
  (cs : list (string * list Z)) (k : mstate -> option R) : option R :=
  match rst with
  | c :: rst' =>
      if p c then
        match star_greedy p (c :: bef) rst' cs k with
        | Some x => Some x
        | None => k (MState bef rst cs)
        end
      else k (MState bef rst cs)
  | [] => k (MState bef rst cs)
  end.

Fixpoint star_lazy {R : Type} (p : Z -> bool) (bef rst : list Z)
  (cs : list (string * list Z)) (k : mstate -> option R) : option R :=
  match k (MState bef rst cs) with
  | Some x => Some x
  | None =>
      match rst with
      | c :: rst' => if p c then star_lazy p (c :: bef) rst' cs k else None
      | [] => None
      end
  end.

(** [m r R st k]: match [r] at [st] and continue with [k]; the first
    success in backtracking order. *)
Fixpoint m (r : regex) (R : Type) (st : mstate) (k : mstate -> option R)
  {struct r} : option R :=
  match r with
  | Eps => k st
  | Lit c =>
      match rest st with
      | c' :: rst => if c' =? c then k (MState (c' :: before st) rst (caps st))
                     else None
      | [] => None
      end
  | Cls p =>
      match rest st with
      | c' :: rst => if p c' then k (MState (c' :: before st) rst (caps st))
                     else None
      | [] => None
      end
  | Seq r1 r2 => m r1 R st (fun st' => m r2 R st' k)
  | Alt r1 r2 =>
      match m r1 R st k with
      | Some x => Some x
      | None => m r2 R st k
      end
  | Grp name r1 =>
      m r1 R st (fun st' =>
        k (MState (before st') (rest st') ((name, consumed st st') :: caps st')))
  | Opt r1 =>
      match m r1 R st k with
      | Some x => Some x
      | None => k st
      end
  | Star p => star_greedy p (before st) (rest st) (caps st) k
  | Lazy p => star_lazy p (before st) (rest st) (caps st) k
  | Bol => match before st with [] => k st | _ => None end
  | WordB w =>
      if xorb (at_word w (before st)) (at_word w (rest st)) then k st else None
  | Ahead r1 =>
      match m r1 unit st (fun _ => Some tt) with
      | Some _ => k st
      | None => None
      end
  end.

(** A match object: where the match starts and the state at its end. *)
Record match_obj : Type := Match {
  m_start : mstate;
  m_end : mstate
}.

Definition match_at (r : regex) (bef rst : list Z) : option match_obj :=
  let st := MState bef rst [] in
  m r match_obj st (fun st' => Some (Match st st')).

(** [re.match(r, s)] *)
Definition re_match (r : regex) (s : list Z) : option match_obj :=
  match_at r [] s.

Fixpoint search_from (r : regex) (bef rst : list Z) : option match_obj :=
  match match_at r bef rst with
  | Some mo => Some mo
  | None =>
      match rst with
      | [] => None
      | c :: rst' => search_from r (c :: bef) rst'
      end
  end.

(** [re.search(r, s)] *)
Definition re_search (r : regex) (s : list Z) : option match_obj :=
  search_from r [] s.

Fixpoint assoc {V : Type} (name : string) (l : list (string * V)) : option V :=
  match l with
  | [] => None
  | (n, v) :: l' => if String.eqb n name then Some v else assoc name l'
  end.

(** [mo.group(name)]: [None] for a group that took no part in the match. *)
Definition group (mo : match_obj) (name : string) : option (list Z) :=
  assoc name (caps (m_end mo)).

Fixpoint group_names (r : regex) : list string :=
  match r with
  | Seq r1 r2 | Alt r1 r2 => group_names r1 ++ group_names r2
  | Grp name r1 => name :: group_names r1
  | Opt r1 | Ahead r1 => group_names r1
  | _ => []
  end.

(** [mo.groupdict()] for a match of [r]. *)
Definition groupdict (r : regex) (mo : match_obj)
  : list (string * option (list Z)) :=
  map (fun n => (n, group mo n)) (group_names r).

(** The groups of a match as [re.findall] lists them: the empty text for a
    group that took no part. *)
Definition groups (r : regex) (mo : match_obj) : list (list Z) :=
  map (fun n => match group mo n with Some t => t | None => [] end)
      (group_names r).

(** [re.findall(r, s)], each match given by its groups in pattern order.
    After a match the scan resumes at its end, one character further when
    the match is empty. *)
Fixpoint findall_from (fuel : nat) (r : regex) (bef rst : list Z)
  : list (list (list Z)) :=
  match fuel with
  | O => []
  | S fuel' =>
      match match_at r bef rst with
      | Some mo =>
          let e := m_end mo in
          let gs := groups r mo in
          if (length (rest e) <? length rst)%nat
          then gs :: findall_from fuel' r (before e) (rest e)
          else gs :: match rst with
                     | [] => []
                     | c :: rst' => findall_from fuel' r (c :: bef) rst'
                     end
      | None =>
          match rst with
          | [] => []
          | c :: rst' => findall_from fuel' r (c :: bef) rst'
          end
      end
  end.

Definition findall (r : regex) (s : list Z) : list (list (list Z)) :=
  findall_from (S (length s)) r [] s.

(** ** Inventory items *)

Inductive category : Type :=
| Amulets | Weapons | Armor | Comestibles | Scrolls | Spellbooks
| Potions | Rings | Wands | Tools | Gems.

Definition CATEGORIES : list category :=
  [Amulets; Weapons; Armor; Comestibles; Scrolls; Spellbooks;
   Potions; Rings; Wands; Tools; Gems].

Definition category_name (c : category) : str :=
  match c with
  | Amulets => u "Amulets"
  | Weapons => u "Weapons"
  | Armor => u "Armor"
  | Comestibles => u "Comestibles"
  | Scrolls => u "Scrolls"
  | Spellbooks => u "Spellbooks"
  | Potions => u "Potions"
  | Rings => u "Rings"
  | Wands => u "Wands"
  | Tools => u "Tools"
  | Gems => u "Gems"
  end.

Definition category_eqb (a b : category) : bool :=
  match a, b with
  | Amulets, Amulets | Weapons, Weapons | Armor, Armor
  | Comestibles, Comestibles | Scrolls, Scrolls | Spellbooks, Spellbooks
  | Potions, Potions | Rings, Rings | Wands, Wands | Tools, Tools
  | Gems, Gems => true
  | _, _ => false
  end.

(** An instance of [<category>Item]: its class and its [raw] text. *)
Record InventoryItem : Type := Item {
  klass : category;
  raw : str
}.

(** [klass(raw)], that is [InventoryItem.__init__]. *)
Definition new_item (k : category) (text : str) : InventoryItem :=
  Item k (strip text).

Definition word_re (w : string) : regex :=
  seqs [WordB is_word; lit (u w); WordB is_word].

Definition is_cursed (it : InventoryItem) : option match_obj :=
  re_search (word_re "cursed") (raw it).

Definition is_uncursed (it : InventoryItem) : option match_obj :=
  re_search (word_re "uncursed") (raw it).

Definition is_blessed (it : InventoryItem) : option match_obj :=
  re_search (word_re "blessed") (raw it).

Definition is_being_worn (it : InventoryItem) : option match_obj :=
  re_search (lit (u "(being worn)")) (raw it).

Definition is_in_use (it : InventoryItem) : option match_obj :=
  re_search (seqs [Lit 40; Alt (lit (u "in use")) (lit (u "lit")); Lit 41])
            (raw it).

Definition duplicates_re : regex := Seq Bol (Grp "1" (Plus is_decimal)).

Definition duplicates (it : InventoryItem) : result Z :=
  match re_match duplicates_re (raw it) with
  | None => Ok 1
  | Some mo => match group mo "1" with
               | Some t => py_int t
               | None => Raise ValueError
               end
  end.

Definition charges_re : regex :=
  seqs [Lit 40; Grp "1" (Plus is_decimal); Lit 58;
        Grp "2" (Plus is_decimal); Lit 41].

Definition charges (it : InventoryItem) : result (option Z * option Z) :=
  match re_match charges_re (raw it) with
  | None => Ok (None, None)
  | Some mo =>
      match group mo "1", group mo "2" with
      | Some a, Some b => x <- py_int a ;; y <- py_int b ;; Ok (Some x, Some y)
      | _, _ => Raise ValueError
      end
  end.

Definition is_sign (c : Z) : bool := (c =? 45) || (c =? 43).

Definition enchantment_re : regex :=
  seqs [Lit 32; Grp "1" (Seq (Cls is_sign) (Plus is_decimal)); Lit 32].

Definition enchantment (it : InventoryItem) : result (option Z) :=
  match re_match enchantment_re (raw it) with
  | None => Ok None
  | Some mo => match group mo "1" with
               | Some t => n <- py_int t ;; Ok (Some n)
               | None => Raise ValueError
               end
  end.

Definition named_re : regex :=
  Seq (lit (u " named ")) (Grp "1" (Plus (fun c => negb (c =? 40)))).

Definition named (it : InventoryItem) : option str :=
  match re_match named_re (raw it) with
  | None => None
  | Some mo => group mo "1"
  end.

(** The three properties only [WeaponsItem] defines; on an instance of
    another class the attribute lookup raises. *)
Definition weapons_only (it : InventoryItem) (r : regex)
  : result (option match_obj) :=
  match klass it with
  | Weapons => Ok (re_search r (raw it))
  | _ => Raise AttributeError
  end.

Definition is_wielded (it : InventoryItem) : result (option match_obj) :=
  weapons_only it (seqs [lit (u "(weapon in hand"); Opt (Lit 115); Lit 41]).

Definition is_alternate (it : InventoryItem) : result (option match_obj) :=
  weapons_only it (lit (u "(alternate weapon; not wielded)")).

Definition is_quivered (it : InventoryItem) : result (option match_obj) :=
  weapons_only it (lit (u "(in quiver)")).

(** Python's truth value of an optional result. *)
Definition truthy {A : Type} (o : option A) : bool :=
  match o with Some _ => true | None => false end.

Definition holds (r : result (option match_obj)) : bool :=
  match r with
  | Ok o => truthy o
  | Raise _ => false
  end.

Definition long_swords : InventoryItem :=
  new_item Weapons (u "2 uncursed +1 long swords (weapon in hands)").

(** ** Arrays

    A two-dimensional [numpy] array: its shape and its rows. *)

Record ndarray (A : Type) : Type := NdArray {
  nrows : nat;
  ncols : nat;
  cells : list (list A)
}.
Arguments NdArray {A} nrows ncols cells.
Arguments nrows {A} n.
Arguments ncols {A} n.
Arguments cells {A} n.

(** [np.zeros((r, c), dtype)]; a negative dimension is an error. *)
Definition np_zeros {A : Type} (zero : A) (r c : Z) : result (ndarray A) :=
  if (r <? 0) || (c <? 0) then Raise ValueError
  else Ok (NdArray (Z.to_nat r) (Z.to_nat c)
                   (repeat (repeat zero (Z.to_nat c)) (Z.to_nat r))).

(** A slice bound [i] on an axis of length [n]: a negative bound counts
    from the end, and the result is clipped to the axis. *)
Definition slice_index (n : nat) (i : Z) : nat :=
  if i <? 0 then Z.to_nat (Z.max 0 (i + Z.of_nat n))
  else Z.to_nat (Z.min i (Z.of_nat n)).

(** The start and the length of [lo:hi] on an axis of length [n]. *)
Definition slice_span (n : nat) (lo hi : Z) : nat * nat :=
  (slice_index n lo, (slice_index n hi - slice_index n lo)%nat).

Definition slice {A : Type} (lo hi : Z) (l : list A) : list A :=
  let '(start, len) := slice_span (length l) lo hi in
  firstn len (skipn start l).

(** [a[ylo:yhi, xlo:xhi]] *)
Definition getslice {A : Type} (a : ndarray A) (ylo yhi xlo xhi : Z)
  : ndarray A :=
  NdArray (snd (slice_span (nrows a) ylo yhi))
          (snd (slice_span (ncols a) xlo xhi))
          (map (slice xlo xhi) (slice ylo yhi (cells a))).

Fixpoint mapi_from {A B : Type} (f : nat -> A -> B) (i : nat) (l : list A)
  : list B :=
  match l with
  | [] => []
  | a :: l' => f i a :: mapi_from f (S i) l'
  end.

Definition mapi {A B : Type} (f : nat -> A -> B) (l : list A) : list B :=
  mapi_from f 0%nat l.

Definition get2 {A : Type} (a : ndarray A) (i j : nat) : option A :=
  match nth_error (cells a) i with
  | Some row => nth_error row j
  | None => None
  end.

Definition within (start len i : nat) : bool :=
  ((start <=? i) && (i <? start + len))%nat.

(** [a[ulo:uhi, vlo:vhi] = src], every value converted by [cast].  The
    source is broadcast to the target region: on each axis its extent is the
    region's or 1, and anything else is an error. *)
Definition setslice {A B : Type} (cast : B -> A) (a : ndarray A)
  (ulo uhi vlo vhi : Z) (src : ndarray B) : result (ndarray A) :=
  let '(u0, hu) := slice_span (nrows a) ulo uhi in
  let '(v0, wv) := slice_span (ncols a) vlo vhi in
  if ((nrows src =? hu) || (nrows src =? 1))%nat
     && ((ncols src =? wv) || (ncols src =? 1))%nat
  then
    Ok (NdArray (nrows a) (ncols a)
          (mapi (fun i row =>
                   mapi (fun j old =>
                           if within u0 hu i && within v0 wv j then
                             match get2 src
                                     (if (nrows src =? 1)%nat then 0 else i - u0)
                                     (if (ncols src =? 1)%nat then 0 else j - v0)
                             with
                             | Some v => cast v
                             | None => old
                             end
                           else old) row)
                (cells a)))
  else Raise ValueError.

Fixpoint replace_nth {A : Type} (n : nat) (x : A) (l : list A) : list A :=
  match l, n with
  | [], _ => []
  | _ :: l', O => x :: l'
  | a :: l', S n' => a :: replace_nth n' x l'
  end.

(** [a[y] = values] for a Python list [values] and [0 <= y]. *)
Definition setrow {A : Type} (a : ndarray A) (y : nat) (values : list A)
  : result (ndarray A) :=
  if (nrows a <=? y)%nat then Raise IndexError
  else if (length values =? ncols a)%nat then
    Ok (NdArray (nrows a) (ncols a) (replace_nth y values (cells a)))
  else match values with
       | [v] => Ok (NdArray (nrows a) (ncols a)
                            (replace_nth y (repeat v (ncols a)) (cells a)))
       | _ => Raise ValueError
       end.

(** [a[y]] for [0 <= y]. *)
Definition getrow {A : Type} (a : ndarray A) (y : nat) : result (list A) :=
  match nth_error (cells a) y with
  | Some row => Ok row
  | None => Raise IndexError
  end.

(** Conversion to [np.uint8]. *)
Definition uint8 (v : Z) : Z := v mod 256.

(** ** Dictionaries, in insertion order *)

Fixpoint dict_get {K V : Type} (eqb : K -> K -> bool) (k : K)
  (d : list (K * V)) : option V :=
  match d with
  | [] => None
  | (k', v) :: d' => if eqb k' k then Some v else dict_get eqb k d'
  end.

Fixpoint dict_set {K V : Type} (eqb : K -> K -> bool) (k : K) (v : V)
  (d : list (K * V)) : list (K * V) :=
  match d with
  | [] => [(k, v)]
  | (k', v') :: d' =>
      if eqb k' k then (k', v) :: d' else (k', v') :: dict_set eqb k v d'
  end.

(** A value of the [stats] and [attributes] dictionaries. *)
Inductive value : Type :=
| VNone
| VStr (s : str)
| VInt (z : Z).

(** ** The command vocabulary *)

Module CMD.
Module DIR.
Definition NW := u "y".
Definition N := u "k".
Definition NE := u "u".
Definition E := u "l".
Definition SE := u "n".
Definition S := u "j".
Definition SW := u "b".
Definition W := u "h".
Definition UP := u "<".
Definition DOWN := u ">".
End DIR.
Definition PICKUP := u ",".
Definition WAIT := u ".".
Definition APPLY := u "a".
Definition CLOSE := u "c".
Definition DROP := u "d".
Definition EAT := u "e".
Definition ENGRAVE := u "E".
Definition FIRE := u "f".
Definition INVENTORY := u "i".
Definition OPEN := u "o".
Definition PAY := u "p".
Definition PUTON := u "P".
Definition QUAFF := u "q".
Definition QUIVER := u "Q".
Definition READ := u "r".
Definition REMOVE := u "R".
Definition SEARCH := u "s".
Definition THROW := u "t".
Definition TAKEOFF := u "T".
Definition WIELD := u "w".
Definition WEAR := u "W".
Definition EXCHANGE := u "x".
Definition ZAP := u "z".
Definition CAST := u "Z".
Definition MORE : str := [13].
Definition KICK : str := [3].
Definition TELEPORT : str := [20].
End CMD.

(** ** The terminal emulator *)

Record tile : Type := Tile {
  glyph : option Z;
  tile_bold : bool;
  tile_reverse : bool
}.

Class Ansiterm (T : Type) : Type := {
  new_term : nat -> nat -> T;
  feed : T -> bytes -> T;
  get_tiles : T -> nat -> nat -> list tile;
  term_cursor : T -> Z * Z
}.

(** ** The player *)

Definition slots : Type := list (str * InventoryItem).

Record Player (T : Type) : Type := MkPlayer {
  glyphs : ndarray Z;
  reverse : ndarray bool;
  bold : ndarray bool;
  _term : T;
  _need_inventory : bool;
  _has_more : bool;
  _command : option str;
  messages : list str;
  stats : list (string * value);
  inventory : list (category * slots);
  cursor : option (Z * Z);
  attributes : option (list (string * value))
}.
Arguments MkPlayer {T}.
Arguments glyphs {T} p.
Arguments reverse {T} p.
Arguments bold {T} p.
Arguments _term {T} p.
Arguments _need_inventory {T} p.
Arguments _has_more {T} p.
Arguments _command {T} p.
Arguments messages {T} p.
Arguments stats {T} p.
Arguments inventory {T} p.
Arguments cursor {T} p.
Arguments attributes {T} p.

(** The two methods a subclass of [Player] provides.  [choose_action] also
    receives the draw of the random generator. *)
Class Strategy (T : Type) : Type := {
  choose_action : Player T -> nat -> result str;
  choose_answer : Player T -> result str
}.

Section PlayerMethods.
Context {T : Type}.

Definition set_glyphs (p : Player T) (g : ndarray Z) : Player T :=
  MkPlayer g (reverse p) (bold p) (_term p) (_need_inventory p)
           (_has_more p) (_command p) (messages p) (stats p) (inventory p)
           (cursor p) (attributes p).

Definition set_reverse (p : Player T) (g : ndarray bool) : Player T :=
  MkPlayer (glyphs p) g (bold p) (_term p) (_need_inventory p)
           (_has_more p) (_command p) (messages p) (stats p) (inventory p)
           (cursor p) (attributes p).

Definition set_bold (p : Player T) (g : ndarray bool) : Player T :=
  MkPlayer (glyphs p) (reverse p) g (_term p) (_need_inventory p)
           (_has_more p) (_command p) (messages p) (stats p) (inventory p)
           (cursor p) (attributes p).

Definition set_term (p : Player T) (t : T) : Player T :=
  MkPlayer (glyphs p) (reverse p) (bold p) t (_need_inventory p)
           (_has_more p) (_command p) (messages p) (stats p) (inventory p)
           (cursor p) (attributes p).

Definition set_need_inventory (p : Player T) (b : bool) : Player T :=
  MkPlayer (glyphs p) (reverse p) (bold p) (_term p) b
           (_has_more p) (_command p) (messages p) (stats p) (inventory p)
           (cursor p) (attributes p).

Definition set_has_more (p : Player T) (b : bool) : Player T :=
  MkPlayer (glyphs p) (reverse p) (bold p) (_term p) (_need_inventory p)
           b (_command p) (messages p) (stats p) (inventory p)
           (cursor p) (attributes p).

Definition set_command (p : Player T) (c : option str) : Player T :=
  MkPlayer (glyphs p) (reverse p) (bold p) (_term p) (_need_inventory p)
           (_has_more p) c (messages p) (stats p) (inventory p)
           (cursor p) (attributes p).

Definition set_messages (p : Player T) (ms : list str) : Player T :=
  MkPlayer (glyphs p) (reverse p) (bold p) (_term p) (_need_inventory p)
           (_has_more p) (_command p) ms (stats p) (inventory p)
           (cursor p) (attributes p).

Definition set_stats (p : Player T) (d : list (string * value)) : Player T :=
  MkPlayer (glyphs p) (reverse p) (bold p) (_term p) (_need_inventory p)
           (_has_more p) (_command p) (messages p) d (inventory p)
           (cursor p) (attributes p).

Definition set_inventory (p : Player T) (d : list (category * slots))
  : Player T :=
  MkPlayer (glyphs p) (reverse p) (bold p) (_term p) (_need_inventory p)
           (_has_more p) (_command p) (messages p) (stats p) d
           (cursor p) (attributes p).

Definition set_cursor (p : Player T) (c : Z * Z) : Player T :=
  MkPlayer (glyphs p) (reverse p) (bold p) (_term p) (_need_inventory p)
           (_has_more p) (_command p) (messages p) (stats p) (inventory p)
           (Some c) (attributes p).

Definition set_attributes (p : Player T) (d : list (string * value))
  : Player T :=
  MkPlayer (glyphs p) (reverse p) (bold p) (_term p) (_need_inventory p)
           (_has_more p) (_command p) (messages p) (stats p) (inventory p)
           (cursor p) (Some d).

(** [Player.neighborhood] *)
Definition neighborhood (p : Player T) (radius : Z) : result (ndarray Z) :=
  let rows := Z.of_nat (nrows (glyphs p)) in
  let cols := Z.of_nat (ncols (glyphs p)) in
  match cursor p with
  | None => Raise AttributeError
  | Some (y, x) =>
      let '(ylo, yhi) := (y - radius, y + radius + 1) in
      let '(xlo, xhi) := (x - radius, x + radius + 1) in
      let '(ulo, uhi) := (0, 2 * radius + 1) in
      let '(vlo, vhi) := (0, 2 * radius + 1) in
      let '(ylo, ulo) := if y <? radius then (0, radius - y) else (ylo, ulo) in
      let '(xlo, vlo) := if x <? radius then (0, radius - x) else (xlo, vlo) in
      let '(yhi, uhi) :=
        if y >? rows - 3 - radius then (rows - 3, radius - (rows - y - 3))
        else (yhi, uhi) in
      let '(xhi, vhi) :=
        if x >? cols - radius then (cols, radius - (cols - x))
        else (xhi, vhi) in
      hood <- np_zeros 0 (2 * radius + 1) (2 * radius + 1) ;;
      setslice uint8 hood ulo uhi vlo vhi
               (getslice (glyphs p) ylo yhi xlo xhi)
  end.

(** The text of a screen row: [''.join(chr(c) for c in self.glyphs[y])];
    [chr] raises outside the range of the code points. *)
Definition row_text (p : Player T) (y : nat) : result str :=
  row <- getrow (glyphs p) y ;;
  if forallb (in_range 0 1114111) row then Ok row else Raise ValueError.

(** [deque(maxlen=1000).append] *)
Definition deque_append (ms : list str) (l : str) : list str :=
  let ms' := ms ++ [l] in
  if (1000 <? length ms')%nat then tl ms' else ms'.

Definition nonempty (s : str) : bool :=
  match s with [] => false | _ => true end.

(** [Player._parse_message] *)
Definition _parse_message (p : Player T) : result (Player T) :=
  l <- row_text p 0 ;;
  if nonempty (strip l)
     && match l with c :: _ => nonempty (strip [c]) | [] => false end
  then Ok (set_messages p (deque_append (messages p) l))
  else Ok p.

Definition ws : regex := Star is_space.
Definition digits (name : string) : regex := Grp name (Plus is_decimal).
Definition non_space (c : Z) : bool := negb (is_space c).
Definition word_list (name : string) (w : string) (others : list string)
  : regex :=
  Opt (Grp name (alts (lit (u w)) (map (fun x => lit (u x)) others))).

Definition attributes_re : regex :=
  seqs [lit (u "St:");
        Grp "st" (Plus (fun c => (c =? 47) || is_decimal c)); ws;
        lit (u "Dx:"); digits "dx"; ws;
        lit (u "Co:"); digits "co"; ws;
        lit (u "In:"); digits "in"; ws;
        lit (u "Wi:"); digits "wi"; ws;
        lit (u "Ch:"); digits "ch"; ws;
        Grp "align" (Plus non_space)].

Definition str_value (v : option str) : value :=
  match v with
  | Some t => VStr t
  | None => VNone
  end.

(** [Player._parse_attributes] *)
Definition _parse_attributes (p : Player T) : result (Player T) :=
  l <- row_text p 22 ;;
  match re_search attributes_re l with
  | Some mo =>
      Ok (set_attributes p
            (map (fun '(k, v) => (k, str_value v))
                 (groupdict attributes_re mo)))
  | None => Ok p
  end.

Definition stats_re : regex :=
  seqs [lit (u "Dlvl:"); Grp "dlvl" (Plus non_space); ws;
        lit (u "$:"); digits "money"; ws;
        lit (u "HP:"); digits "hp"; Lit 40; digits "hp_max"; Lit 41; ws;
        lit (u "Pw:"); digits "pw"; Lit 40; digits "pw_max"; Lit 41; ws;
        lit (u "AC:"); digits "ac"; ws;
        lit (u "Exp:"); digits "exp"; ws;
        word_list "hunger" "Satiated" ["Hungry"%string; "Weak"%string; "Fainting"%string]; ws;
        word_list "stun" "Stun" []; ws;
        word_list "conf" "Conf" []; ws;
        word_list "blind" "Blind" []; ws;
        word_list "burden" "Burdened"
                  ["Stressed"%string; "Strained"%string; "Overtaxed"%string;
                   "Overloaded"%string]; ws;
        word_list "hallu" "Hallu" []; ws].

(** The body of the loop of [_parse_stats]: a text of digits becomes an
    integer. *)
Definition coerce (kv : string * option str) : result (string * value) :=
  match snd kv with
  | Some t => if nonempty t && isdigit t
              then n <- py_int t ;; Ok (fst kv, VInt n)
              else Ok (fst kv, VStr t)
  | None => Ok (fst kv, VNone)
  end.

(** [Player._parse_stats] *)
Definition _parse_stats (p : Player T) : result (Player T) :=
  l <- row_text p 23 ;;
  match re_search stats_re l with
  | Some mo =>
      d <- mapM coerce (groupdict stats_re mo) ;;
      Ok (set_stats p d)
  | None => Ok p
  end.
End PlayerMethods.

(** ** Inventory extraction, the screen and the turn controller *)

Definition inventory_re : regex :=
  seqs [Lit 32; Grp "1" (Cls is_word_bytes); lit (u " - ");
        Grp "2" (Lazy (fun c => negb (c =? 10))); Ahead (lit [ESC; 91])].

Definition reverse_video : bytes := ESC :: u "[7m".

(** The inner loop of [_parse_inventory]: one slot per record found. *)
Definition add_slot (k : category) (contents : slots) (rec : list (list Z))
  : result slots :=
  match rec with
  | [letter; name] =>
      l <- decode_utf8 letter ;;
      n <- decode_utf8 name ;;
      Ok (dict_set str_eqb l (new_item k n) contents)
  | _ => Raise ValueError
  end.

(** The state of the outer loop: the inventory and [found_inventory]. *)
Definition scan_category (frame : bytes) (acc : list (category * slots) * bool)
  (k : category) : result (list (category * slots) * bool) :=
  let '(inv, found) := acc in
  let '(inv, contents) :=
    match dict_get category_eqb k inv with
    | Some c => (inv, c)
    | None => (dict_set category_eqb k [] inv, [])
    end in
  let i := find (category_name k) frame in
  if i >? 0 then
    let s := split_head reverse_video (skipn (Z.to_nat i) frame) in
    contents <- foldM (add_slot k) (findall inventory_re s) contents ;;
    Ok (dict_set category_eqb k contents inv, true)
  else Ok (inv, found).

Definition more_marker : bytes := u "--More--".
Definition end_marker : bytes := u "(end)".

(** The decision of [_act], named after the input the game is waiting for. *)
Inductive branch : Type :=
| ContinuationPending
| Dead
| AnswerExpected
| InventoryNeeded
| Free.

Section Controller.
Context {T : Type}.

(** [Player._parse_inventory] *)
Definition _parse_inventory (p : Player T) (frame : bytes)
  : result (Player T) :=
  '(inv, found) <- foldM (scan_category frame) CATEGORIES
                         (inventory p, false) ;;
  Ok (set_need_inventory (set_inventory p inv) (negb found)).

(** The state [Player.play] sets up before it starts the game. *)
Definition play_init (shape : nat * nat) (t : T) : Player T :=
  let '(r, c) := shape in
  MkPlayer (NdArray r c (repeat (repeat 0 c) r))
           (NdArray r c (repeat (repeat false c) r))
           (NdArray r c (repeat (repeat false c) r))
           t true false None [] [] [] None None.

(** [msg = self.messages and self.messages[-1] or ''] *)
Definition last_message (p : Player T) : str := last (messages p) [].

Definition act_branch (p : Player T) : branch :=
  let msg := last_message p in
  if _has_more p then ContinuationPending
  else if contains (u "You die") msg then Dead
  else if contains (u "? ") msg && negb (contains (u " written ") msg)
  then AnswerExpected
  else if _need_inventory p then InventoryNeeded
  else Free.

Context {strategy : Strategy T}.

(** [Player._act]; [draw] is what the random generator gives the
    strategy. *)
Definition _act (p : Player T) (draw : nat) : result (Player T * str) :=
  c <- match act_branch p with
       | ContinuationPending => Ok CMD.MORE
       | Dead => Ok (u "q")
       | AnswerExpected => choose_answer p
       | InventoryNeeded => Ok CMD.INVENTORY
       | Free => choose_action p draw
       end ;;
  Ok (set_command p (Some c), c).

(** What [_act] returns when it sends [c]. *)
Definition sends (p : Player T) (c : str) : result (Player T * str) :=
  Ok (set_command p (Some c), c).

Context {term : Ansiterm T}.

(** The loop of [_parse_glyphs] over the rows of the screen. *)
Definition read_row (t : T) (p : Player T) (y : nat) : result (Player T) :=
  let X := ncols (glyphs p) in
  let tiles := get_tiles t (X * y) (X * (y + 1)) in
  g <- setrow (glyphs p) y
         (map (fun t => match glyph t with Some c => c | None => 0 end) tiles) ;;
  b <- setrow (bold p) y (map tile_bold tiles) ;;
  r <- setrow (reverse p) y (map tile_reverse tiles) ;;
  Ok (set_reverse (set_bold (set_glyphs p g) b) r).

(** [Player._parse_glyphs] *)
Definition _parse_glyphs (p : Player T) (frame : bytes)
  : result (Player T) :=
  let Y := nrows (glyphs p) in
  let t := feed (_term p) frame in
  let p := set_term p t in
  p <- foldM (read_row t) (seq 0 Y) p ;;
  let p := set_cursor p (term_cursor t) in
  _ <- neighborhood p 3 ;;
  p <- _parse_message p ;;
  p <- _parse_attributes p ;;
  _parse_stats p.

Definition is_inventory_command (c : option str) : bool :=
  match c with
  | Some s => str_eqb s CMD.INVENTORY
  | None => false
  end.

(** [Player._observe] *)
Definition _observe (p : Player T) (frame : bytes) : result (Player T) :=
  p <- _parse_glyphs p frame ;;
  p <- (if is_inventory_command (_command p) then
          let p := if negb (_has_more p) then set_inventory p [] else p in
          _parse_inventory p frame
        else Ok p) ;;
  let p := set_command p None in
  Ok (set_has_more p (contains more_marker frame || contains end_marker frame)).
End Controller.

(** One iteration of the loop of [_copy], installed in place of
    [pty._copy]: the bytes [_drain] has collected are observed when there are
    any, and the command of [_act] is written to the game.  [copy_loop] is
    the loop run over the frames and draws of a finite run; it returns the
    player and the commands written. *)
Definition copy_step {T : Type} {strategy : Strategy T} {term : Ansiterm T}
  (p : Player T) (buf : bytes) (draw : nat) : result (Player T * str) :=
  p <- (if nonempty buf then _observe p buf else Ok p) ;;
  _act p draw.

Fixpoint copy_loop {T : Type} {strategy : Strategy T} {term : Ansiterm T}
  (p : Player T) (inputs : list (bytes * nat)) : result (Player T * list str) :=
  match inputs with
  | [] => Ok (p, [])
  | (buf, draw) :: inputs' =>
      '(p, c) <- copy_step p buf draw ;;
      '(p, cs) <- copy_loop p inputs' ;;
      Ok (p, c :: cs)
  end.

(** [RandomMover] *)
Definition RandomMover (T : Type) : Strategy T := {|
  choose_answer := fun _ => Ok (u "n");
  choose_action := fun _ draw =>
    Ok (nth (draw mod 8)
            [CMD.DIR.N; CMD.DIR.NE; CMD.DIR.E; CMD.DIR.SE;
             CMD.DIR.S; CMD.DIR.SW; CMD.DIR.W; CMD.DIR.NW] CMD.DIR.N)
|}.

(** [Player] itself, whose two methods are not implemented. *)
Definition AbstractPlayer (T : Type) : Strategy T := {|
  choose_answer := fun _ => Raise NotImplementedError;
  choose_action := fun _ _ => Raise NotImplementedError
|}.

(** ** Vocabulary and inputs of the properties *)

(** The two tests of [_act] on the latest message. *)
Definition dies (msg : str) : bool := contains (u "You die") msg.

Definition answer_prompt (msg : str) : bool :=
  contains (u "? ") msg && negb (contains (u " written ") msg).

(** A player in front of a screen of 24 rows of 80 blanks, with a record
    of attributes and of stats from an earlier frame. *)
Definition blank_screen_player : Player unit :=
  MkPlayer (NdArray 24 80 (repeat (repeat 32 80%nat) 24))
           (NdArray 24 80 (repeat (repeat false 80%nat) 24))
           (NdArray 24 80 (repeat (repeat false 80%nat) 24))
           tt false false None []
           [("dlvl"%string, VInt 1); ("hp"%string, VInt 12)] []
           (Some (5, 7))
           (Some [("st"%string, VStr (u "16")); ("align"%string, VStr (u "Neutral"))]).

(** A player whose latest message is [msg], with nothing pending and the
    inventory not yet captured. *)
Definition player_hearing (msg : str) : Player unit :=
  MkPlayer (NdArray 24 80 (repeat (repeat 32 80%nat) 24))
           (NdArray 24 80 (repeat (repeat false 80%nat) 24))
           (NdArray 24 80 (repeat (repeat false 80%nat) 24))
           tt true false None [msg] [] [] (Some (5, 7)) None.

Definition guard_prompt : str := u "Really attack the guard? [yn]".

Definition status_text : str :=
  u "Dlvl:5 $:120 HP:10(20) Pw:3(5) AC:8 Exp:3 Hungry".

(** What [_parse_stats] stores for [status_text]. *)
Definition hungry_stats : list (string * value) :=
  [("dlvl"%string, VInt 5); ("money"%string, VInt 120);
   ("hp"%string, VInt 10); ("hp_max"%string, VInt 20);
   ("pw"%string, VInt 3); ("pw_max"%string, VInt 5);
   ("ac"%string, VInt 8); ("exp"%string, VInt 3);
   ("hunger"%string, VStr (u "Hungry"));
   ("stun"%string, VNone); ("conf"%string, VNone); ("blind"%string, VNone);
   ("burden"%string, VNone); ("hallu"%string, VNone)].

Definition attribute_text : str :=
  u "St:18/02 Dx:12 Co:14 In:10 Wi:9 Ch:8 Lawful".

(** What [_parse_attributes] stores for [attribute_text]. *)
Definition lawful_attributes : list (string * value) :=
  [("st"%string, VStr (u "18/02")); ("dx"%string, VStr (u "12"));
   ("co"%string, VStr (u "14")); ("in"%string, VStr (u "10"));
   ("wi"%string, VStr (u "9")); ("ch"%string, VStr (u "8"));
   ("align"%string, VStr (u "Lawful"))].

(** [stops p s]: a repetition of the class [p] cannot go on at [s]. *)
Definition stops (p : Z -> bool) (s : list Z) : bool :=
  match s with
  | [] => true
  | c :: _ => negb (p c)
  end.

(** The groups of the matches of [attribute_text] and [status_text], latest
    first. *)
Definition attribute_caps : list (string * list Z) :=
  [("align"%string, u "Lawful"); ("ch"%string, u "8"); ("wi"%string, u "9");
   ("in"%string, u "10"); ("co"%string, u "14"); ("dx"%string, u "12");
   ("st"%string, u "18/02")].

Definition status_caps : list (string * list Z) :=
  [("hunger"%string, u "Hungry"); ("exp"%string, u "3"); ("ac"%string, u "8");
   ("pw_max"%string, u "5"); ("pw"%string, u "3"); ("hp_max"%string, u "20");
   ("hp"%string, u "10"); ("money"%string, u "120"); ("dlvl"%string, u "5")].

(** A player in front of a screen of 24 rows and 80 columns whose row 22
    shows the title of the hero and [attribute_text], and whose row 23 shows
    [status_text], both followed by blanks. *)
Definition hero_title : str := u "Agent the Stripling   ".

Definition status_screen_player : Player unit :=
  MkPlayer (NdArray 24 80 (repeat (repeat 32 80%nat) 22
                           ++ [hero_title ++ attribute_text ++ repeat 32 15%nat;
                               status_text ++ repeat 32 32%nat]))
           (NdArray 24 80 (repeat (repeat false 80%nat) 24))
           (NdArray 24 80 (repeat (repeat false 80%nat) 24))
           tt true false None [] [] [] (Some (5, 7)) None.

(** An emulator that shows nothing: every cell is empty and the cursor
    stays at the origin. *)
Definition SilentTerm : Ansiterm unit := {|
  new_term := fun _ _ => tt;
  feed := fun t _ => t;
  get_tiles := fun _ lo hi => repeat (Tile None false false) (hi - lo);
  term_cursor := fun _ => (0, 0)
|}.

(** A strategy that asks for the inventory whenever it is free to act. *)
Definition Rechecker (T : Type) : Strategy T := {|
  choose_answer := fun _ => Ok (u "n");
  choose_action := fun _ _ => Ok CMD.INVENTORY
|}.

(** A section of an inventory listing: the label in reverse video, then the
    records, each ended by an erase-to-end-of-line sequence. *)
Definition listing (label : string) (records : list string) : bytes :=
  reverse_video ++ u label ++ ESC :: u "[0m"
  ++ concat (map (fun r => u r ++ ESC :: u "[K") records).

Definition weapons_page : bytes :=
  listing "Weapons" [" a - a dagger"%string] ++ more_marker.

Definition armor_page : bytes :=
  listing "Armor" [" b - a cloak"%string] ++ end_marker.

(** The same listing of weapons with nothing before the label. *)
Definition bare_weapons_frame : bytes :=
  u "Weapons" ++ ESC :: u "[0m" ++ u " a - a dagger" ++ ESC :: u "[K".

(** A player who holds a dagger in slot a and is free to act. *)
Definition armed_player : Player unit :=
  MkPlayer (NdArray 24 80 (repeat (repeat 32 80%nat) 24))
           (NdArray 24 80 (repeat (repeat false 80%nat) 24))
           (NdArray 24 80 (repeat (repeat false 80%nat) 24))
           tt false false None []
           [] [(Weapons, [(u "a", new_item Weapons (u "a dagger"))])]
           (Some (0, 0)) None.

(** The state [play] sets up for a screen of 40 rows and 120 columns, the
    default shape. *)
Definition fresh_player : Player unit := play_init (40%nat, 120%nat) tt.

(** Whether a frame shows a continuation marker. *)
Definition shows_marker (frame : bytes) : bool :=
  contains more_marker frame || contains end_marker frame.

(** What the controller keeps between [_act] and [_observe]. *)
Definition control {T : Type} (p : Player T)
  : option str * bool * bool * list (category * slots) :=
  (_command p, _has_more p, _need_inventory p, inventory p).

(** The player a step of the run leaves, for the steps that return. *)
Definition after_act (r : result (Player unit * str)) : Player unit :=
  match r with
  | Ok (p, _) => p
  | Raise _ => fresh_player
  end.

Definition after_glyphs (r : result (Player unit)) : Player unit :=
  match r with
  | Ok p => p
  | Raise _ => fresh_player
  end.

(** An array whose rows agree with its shape. *)
Definition wf_array {A : Type} (a : ndarray A) : Prop :=
  length (cells a) = nrows a /\
  Forall (fun row => length row = ncols a) (cells a).

(** The glyph at row [sy] and column [sx] of the screen, when there is such a
    cell. *)
Definition glyph_at (g : ndarray Z) (sy sx : Z) : option Z :=
  if (0 <=? sy) && (0 <=? sx) then get2 g (Z.to_nat sy) (Z.to_nat sx)
  else None.

(** The cell of the neighbourhood for a screen cell: the glyph as an
    [np.uint8], zero where there is no cell. *)
Definition hood_cell (g : ndarray Z) (sy sx : Z) : Z :=
  match glyph_at g sy sx with
  | Some v => uint8 v
  | None => 0
  end.

(** A screen of [r] rows and [c] columns whose cell at row [i] and column
    [j] holds the glyph [33 + i + j], and a player whose cursor is at [cur]
    on it. *)
Definition coded_screen (r c : nat) : ndarray Z :=
  NdArray r c
    (map (fun i => map (fun j => 33 + Z.of_nat i + Z.of_nat j) (seq 0 c))
         (seq 0 r)).

Definition player_at (g : ndarray Z) (cur : Z * Z) : Player unit :=
  MkPlayer g
           (NdArray (nrows g) (ncols g) (repeat (repeat false (ncols g)) (nrows g)))
           (NdArray (nrows g) (ncols g) (repeat (repeat false (ncols g)) (nrows g)))
           tt true false None [] [] [] (Some cur) None.

(** An emulator that ignores what it is fed and always shows the same
    picture, given by its rows, with the cursor on the second row. *)
Definition PictureTerm : Ansiterm (list (list Z)) := {|
  new_term := fun r c => repeat (repeat 32 c) r;
  feed := fun t _ => t;
  get_tiles := fun t lo hi =>
    map (fun c => Tile (Some c) false false)
        (firstn (hi - lo) (skipn lo (concat t)));
  term_cursor := fun _ => (1, 0)
|}.

(** A picture of 24 rows and 80 columns: the guard prompt on the message
    row, the title and the attributes on row 22, the status on row 23. *)
Definition guard_picture : list (list Z) :=
  [guard_prompt ++ repeat 32 51%nat] ++ repeat (repeat 32 80%nat) 21
  ++ [hero_title ++ attribute_text ++ repeat 32 15%nat;
      status_text ++ repeat 32 32%nat].

(** ** Vocabulary of the further properties *)

Definition first_is_visible (l : str) : bool :=
  match l with
  | c :: _ => negb (is_space c)
  | [] => false
  end.
Definition loop_player (r : result (Player unit * list str)) : Player unit :=
  match r with
  | Ok (p, _) => p
  | Raise _ => fresh_player
  end.

Definition loop_commands (r : result (Player unit * list str)) : list str :=
  match r with
  | Ok (_, cs) => cs
  | Raise _ => []
  end.

(** The keys [RandomMover] can send. *)
Definition random_mover_keys : list str :=
  [CMD.MORE; u "q"; u "n"; CMD.INVENTORY;
   CMD.DIR.N; CMD.DIR.NE; CMD.DIR.E; CMD.DIR.SE;
   CMD.DIR.S; CMD.DIR.SW; CMD.DIR.W; CMD.DIR.NW].

(** Three frames of a run: a first screen, a page of an inventory listing
    that ends with a marker, and a plain screen. *)
Definition three_frames : list (bytes * nat) :=
  [(u "NetHack", 0%nat); (weapons_page, 5%nat); (u "@", 6%nat)].

Definition shape {A : Type} (a : ndarray A) : nat * nat := (nrows a, ncols a).

(** The three planes of the screen are well formed and of one shape. *)
Definition screen_ok {T : Type} (p : Player T) : Prop :=
  wf_array (glyphs p) /\ wf_array (bold p) /\ wf_array (reverse p) /\
  shape (bold p) = shape (glyphs p) /\ shape (reverse p) = shape (glyphs p).

(** The code of a tile in the glyph plane. *)
Definition glyph_code (t : tile) : Z :=
  match glyph t with
  | Some c => c
  | None => 0
  end.

(** The row a list of values becomes when it is assigned to a row of [n]
    cells: itself, or its one value in every cell. *)
Definition row_values {A : Type} (zero : A) (n : nat) (values : list A)
  : list A :=
  if (length values =? n)%nat then values else repeat (hd zero values) n.
(** [slots_kept cs cs']: every slot filled in [cs] is filled in [cs']. *)
Definition slots_kept (cs cs' : slots) : Prop :=
  forall letter it, dict_get str_eqb letter cs = Some it ->
                    exists it', dict_get str_eqb letter cs' = Some it'.
Fixpoint takewhile (p : Z -> bool) (s : list Z) : list Z :=
  match s with
  | [] => []
  | c :: s' => if p c then c :: takewhile p s' else []
  end.

(** The digits a text starts with, and the number a list of digits
    writes. *)
Definition leading_digits (s : str) : str := takewhile is_decimal s.

Definition decimal_value (ds : str) : Z :=
  fold_left (fun acc c => 10 * acc + (c - 48)) ds 0.

(** The keys of the two records, in the order of the groups. *)
Definition stats_keys : list string :=
  ["dlvl"; "money"; "hp"; "hp_max"; "pw"; "pw_max"; "ac"; "exp";
   "hunger"; "stun"; "conf"; "blind"; "burden"; "hallu"]%string.

Definition attributes_keys : list string :=
  ["st"; "dx"; "co"; "in"; "wi"; "ch"; "align"]%string.

(** What [_parse_stats] can store: None, a natural number, or a text that
    is not made of digits. *)
Definition coerced (v : value) : Prop :=
  match v with
  | VNone => True
  | VInt n => 0 <= n
  | VStr t => isdigit t = false
  end.

Definition is_text (v : value) : Prop :=
  match v with
  | VInt _ => False
  | _ => True
  end.

(** The three planes of a player. *)
Definition planes {T : Type} (p : Player T)
  : ndarray Z * ndarray bool * ndarray bool :=
  (glyphs p, bold p, reverse p).

(** What one round of the loop of [_parse_inventory] does to the entry of
    a category [k']: it is there afterwards if it was there or is the one
    scanned; its filled slots stay filled; and it is the same entry when
    the label of [k'] is not found at an offset above 0. *)
Definition entry_kept (frame : bytes) (k' : category)
  (inv inv' : list (category * slots)) : Prop :=
  forall cs, dict_get category_eqb k' inv = Some cs ->
    exists cs', dict_get category_eqb k' inv' = Some cs' /\
                slots_kept cs cs' /\
                (find (category_name k') frame <= 0 -> cs' = cs).

(** What a call returned, [d] when it raised. *)
Definition ok_or {A : Type} (r : result A) (d : A) : A :=
  match r with
  | Ok a => a
  | Raise _ => d
  end.

(** A player in front of [guard_picture]. *)
Definition prompt_player : Player unit :=
  MkPlayer (NdArray 24 80 guard_picture)
           (NdArray 24 80 (repeat (repeat false 80%nat) 24))
           (NdArray 24 80 (repeat (repeat false 80%nat) 24))
           tt true false None [] [] [] (Some (1, 0)) None.

(** A wand, as the game lists it. *)
Definition digging_wand : InventoryItem :=
  new_item Wands (u "a wand of digging (0:8)").

(** [anywhere f s]: [f] holds of [s] or of one of its suffixes. *)
Fixpoint anywhere (f : list Z -> bool) (s : list Z) : bool :=
  f s || match s with
         | [] => false
         | _ :: s' => anywhere f s'
         end.

(** [word_in w s]: [w] occurs in [s] as a whole word, with no word character
    directly before or after it. *)
Definition word_in (w s : list Z) : Prop :=
  exists a b, s = a ++ w ++ b /\
              at_word is_word (rev a) = false /\ at_word is_word b = false.

(** The texts the character classes of the embedding are exact on: every
    code point is below 256. *)
Definition latin1 (s : list Z) : Prop :=
  forallb (in_range 0 255) s = true.

(** [slots_classed k cs]: every item of [cs] is an instance of the class of
    category [k]. *)
Definition slots_classed (k : category) (cs : slots) : Prop :=
  forall letter it, dict_get str_eqb letter cs = Some it -> klass it = k.

(** Every item of the inventory is an instance of the class of the category
    it is filed under. *)
Definition inventory_classed (inv : list (category * slots)) : Prop :=
  forall k cs, dict_get category_eqb k inv = Some cs -> slots_classed k cs.

(** Replaying a list of writes on a dictionary, first to last. *)
Definition writes {K V : Type} (eqb : K -> K -> bool) (ws : list (K * V))
  (d : list (K * V)) : list (K * V) :=
  fold_left (fun d w => dict_set eqb (fst w) (snd w) d) ws d.

(** [settled frame inv k]: scanning [frame] for category [k] leaves the
    inventory [inv] as it is. *)
Definition settled (frame : bytes) (inv : list (category * slots))
  (k : category) : Prop :=
  forall found,
    scan_category frame (inv, found) k =
    Ok (inv, (find (category_name k) frame >? 0) || found).

(** * Properties *)

(** ** Text *)

Lemma dropwhile_head (p : Z -> bool) (s : list Z) :
  dropwhile p s = [] \/
  exists c t, dropwhile p s = c :: t /\ p c = false.
Proof.
  induction s as [| c s IH]; simpl.
  - now left.
  - destruct (p c) eqn:E.
    + exact IH.
    + right. now exists c, s.
Qed.

Lemma dropwhile_keeps_last (p : Z -> bool) (s : list Z) (c : Z) :
  p c = false -> exists t, dropwhile p (s ++ [c]) = t ++ [c].
Proof.
  intros Hc. induction s as [| d s IH]; simpl.
  - rewrite Hc. now exists [].
  - destruct (p d).
    + exact IH.
    + now exists (d :: s).
Qed.

(** A stripped text is empty or starts with a character that is not white
    space. *)
Lemma strip_head (s : str) :
  strip s = [] \/ exists c t, strip s = c :: t /\ is_space c = false.
Proof.
  unfold strip, rstrip, lstrip.
  destruct (dropwhile_head is_space s) as [E | (c & t & E & Hc)]; rewrite E.
  - now left.
  - right. simpl.
    destruct (dropwhile_keeps_last is_space (rev t) c Hc) as [t' E'].
    rewrite E', rev_app_distr. simpl. now exists c, (rev t').
Qed.

Lemma space_is_space (c : Z) : (c =? 32) = true -> is_space c = true.
Proof.
  intros H. apply Z.eqb_eq in H. now subst.
Qed.

(** ** Inventory items *)

Lemma match_needs_leading_space (r : regex) (s : str) :
  (s = [] \/ exists c t, s = c :: t /\ is_space c = false) ->
  re_match (Seq (Lit 32) r) s = None.
Proof.
  intros [-> | (c & t & -> & Hc)]; unfold re_match, match_at; simpl.
  - reflexivity.
  - destruct (c =? 32) eqn:E; [| reflexivity].
    apply space_is_space in E. congruence.
Qed.

(** C10.  Whatever the raw description text, the enchantment and the custom
    name of an inventory item are absent: the text is stripped when the item
    is built, and both patterns are matched at the start of the text only,
    where they require a space. *)
Theorem enchantment_and_named_always_absent (k : category) (text : str) :
  enchantment (new_item k text) = Ok None /\ named (new_item k text) = None.
Proof.
  pose proof (strip_head text) as H.
  unfold enchantment, named, new_item; simpl raw.
  split.
  - change enchantment_re
      with (Seq (Lit 32)
                (Seq (Grp "1" (Seq (Cls is_sign) (Plus is_decimal))) (Lit 32))).
    now rewrite match_needs_leading_space.
  - change named_re
      with (Seq (Seq (Lit 32) (lit (u "named ")))
                (Grp "1" (Plus (fun c => negb (c =? 40))))).
    destruct H as [-> | (c & t & -> & Hc)]; unfold re_match, match_at; simpl.
    + reflexivity.
    + destruct (c =? 32) eqn:E; [| reflexivity].
      apply space_is_space in E. congruence.
Qed.

(** C7.  The weapon "2 uncursed +1 long swords (weapon in hands)" has
    2 duplicates, is uncursed, is not cursed and is wielded, as the claim
    says; its enchantment, which the claim gives as 1, is absent. *)
Theorem long_swords_enchantment_is_lost :
  duplicates long_swords = Ok 2 /\
  truthy (is_uncursed long_swords) = true /\
  truthy (is_cursed long_swords) = false /\
  holds (is_wielded long_swords) = true /\
  enchantment long_swords = Ok None.
Proof.
  repeat split; vm_compute; reflexivity.
Qed.

(** With [re.search] in place of [re.match], as the sibling properties
    have it, the pattern of [enchantment] finds the +1. *)
Lemma long_swords_enchantment_by_search :
  match re_search enchantment_re (raw long_swords) with
  | Some mo => option_map py_int (group mo "1")
  | None => None
  end = Some (Ok 1).
Proof.
  vm_compute. reflexivity.
Qed.

(** ** The parsers of the two status rows *)

Section Sticky.
Context {T : Type}.

(** C8.  When the attribute row (respectively the status row) of the
    screen does not match the extraction pattern, [_parse_attributes]
    (respectively [_parse_stats]) returns normally and leaves the player,
    and so the stored record, as it was. *)
Theorem parse_failures_are_sticky (p : Player T) (la ls : str) :
  (row_text p 22 = Ok la -> re_search attributes_re la = None ->
   _parse_attributes p = Ok p) /\
  (row_text p 23 = Ok ls -> re_search stats_re ls = None ->
   _parse_stats p = Ok p).
Proof.
  split; intros Hrow Hre.
  - unfold _parse_attributes. rewrite Hrow. simpl. now rewrite Hre.
  - unfold _parse_stats. rewrite Hrow. simpl. now rewrite Hre.
Qed.
End Sticky.

Lemma parse_failures_are_sticky_witness :
  _parse_attributes blank_screen_player = Ok blank_screen_player /\
  _parse_stats blank_screen_player = Ok blank_screen_player.
Proof.
  destruct (parse_failures_are_sticky blank_screen_player
              (repeat 32 80%nat) (repeat 32 80%nat)) as [A S].
  split; [apply A | apply S]; vm_compute; reflexivity.
Defined.

(** ** The turn controller *)

Section Decision.
Context {T : Type} {strategy : Strategy T}.

(** C3.  [_act] decides in strict priority order: a pending continuation
    is acknowledged; else a death message makes it quit; else an answer
    prompt goes to [choose_answer]; else a missing inventory is requested;
    else [choose_action] decides.  In particular the prompt
    "Really attack the guard? [yn]" is answered although the inventory was
    never captured. *)
Theorem act_priority_order (p : Player T) (draw : nat) :
  let msg := last_message p in
  (_has_more p = true ->
   act_branch p = ContinuationPending /\ _act p draw = sends p CMD.MORE) /\
  (_has_more p = false -> dies msg = true ->
   act_branch p = Dead /\ _act p draw = sends p (u "q")) /\
  (_has_more p = false -> dies msg = false -> answer_prompt msg = true ->
   act_branch p = AnswerExpected /\
   _act p draw = (c <- choose_answer p ;; sends p c)) /\
  (_has_more p = false -> dies msg = false -> answer_prompt msg = false ->
   _need_inventory p = true ->
   act_branch p = InventoryNeeded /\ _act p draw = sends p CMD.INVENTORY) /\
  (_has_more p = false -> dies msg = false -> answer_prompt msg = false ->
   _need_inventory p = false ->
   act_branch p = Free /\
   _act p draw = (c <- choose_action p draw ;; sends p c)) /\
  (_has_more p = false -> msg = u "Really attack the guard? [yn]" ->
   _need_inventory p = true ->
   act_branch p = AnswerExpected /\
   _act p draw = (c <- choose_answer p ;; sends p c)).
Proof.
  unfold _act, act_branch, dies, answer_prompt, sends. cbv zeta.
  repeat split; intros;
    repeat match goal with
           | H : _ = true |- _ => rewrite H
           | H : _ = false |- _ => rewrite H
           | H : last_message p = _ |- _ => rewrite H
           end; reflexivity.
Qed.

(** C4, as the code has it.  With no continuation pending and no death
    message, [_act] delegates to [choose_answer] exactly when the latest
    message contains "? " somewhere and does not contain " written ",
    spaces included. *)
Theorem answer_expected_iff (p : Player T) :
  _has_more p = false ->
  dies (last_message p) = false ->
  (act_branch p = AnswerExpected <->
   contains (u "? ") (last_message p) = true /\
   contains (u " written ") (last_message p) = false).
Proof.
  unfold act_branch, dies. intros -> ->.
  destruct (contains (u "? ") (last_message p));
    destruct (contains (u " written ") (last_message p)); simpl;
    destruct (_need_inventory p); split;
    try (intros [? ?]); try discriminate; intuition congruence.
Qed.
End Decision.

Lemma act_priority_order_witness :
  act_branch (player_hearing guard_prompt) = AnswerExpected /\
  @_act unit (RandomMover unit) (player_hearing guard_prompt) 0
  = Ok (set_command (player_hearing guard_prompt) (Some (u "n")), u "n").
Proof.
  destruct (@act_priority_order unit (RandomMover unit)
              (player_hearing guard_prompt) 0%nat)
    as (_ & _ & _ & _ & _ & H).
  apply H; reflexivity.
Defined.

Lemma answer_expected_iff_witness :
  act_branch (player_hearing guard_prompt) = AnswerExpected <->
  contains (u "? ") guard_prompt = true /\
  contains (u " written ") guard_prompt = false.
Proof.
  apply (answer_expected_iff (player_hearing guard_prompt)); reflexivity.
Defined.

(** C4 as the claim words it fails in both directions: the guard prompt
    does not end with "? " and is answered; "Is this handwritten? " contains
    "written" and is answered too. *)
Lemma answer_prompt_is_not_a_suffix_test :
  let claimed (msg : str) :=
    endswith (u "? ") msg = true /\ contains (u "written") msg = false in
  let p1 := player_hearing guard_prompt in
  let p2 := player_hearing (u "Is this handwritten? ") in
  (_has_more p1 = false /\ dies (last_message p1) = false /\
   ~ (act_branch p1 = AnswerExpected <-> claimed (last_message p1))) /\
  (_has_more p2 = false /\ dies (last_message p2) = false /\
   ~ (act_branch p2 = AnswerExpected <-> claimed (last_message p2))).
Proof.
  cbv zeta.
  split; (split; [reflexivity | split; [reflexivity |]]).
  - intros [H _].
    assert (E : act_branch (player_hearing guard_prompt) = AnswerExpected)
      by reflexivity.
    destruct (H E) as [E' _]. vm_compute in E'. discriminate.
  - intros [H _].
    assert (E : act_branch (player_hearing (u "Is this handwritten? "))
                = AnswerExpected) by reflexivity.
    destruct (H E) as [_ E']. vm_compute in E'. discriminate.
Qed.

(** ** The two status rows, on the texts of C5 and C6

    The matcher is run on a subject whose ends are unknown by applying one
    lemma for each step of the match. *)

Lemma consumed_app (l B r r' : list Z) c c' :
  consumed (MState B r c) (MState (l ++ B) r' c') = rev l.
Proof.
  unfold consumed. cbn [before]. rewrite length_app.
  replace (length l + length B - length B)%nat with (length l) by lia.
  now rewrite firstn_app, firstn_all, Nat.sub_diag, app_nil_r.
Qed.

Lemma star_greedy_more {R : Type} (p : Z -> bool) (c : Z) (bef rst : list Z)
  (cs : list (string * list Z)) (k : mstate -> option R) (x : R) :
  p c = true ->
  star_greedy p (c :: bef) rst cs k = Some x ->
  star_greedy p bef (c :: rst) cs k = Some x.
Proof.
  intros Hp H. simpl. now rewrite Hp, H.
Qed.

Lemma star_greedy_stop {R : Type} (p : Z -> bool) (bef rst : list Z)
  (cs : list (string * list Z)) (k : mstate -> option R) :
  stops p rst = true ->
  star_greedy p bef rst cs k = k (MState bef rst cs).
Proof.
  destruct rst as [| c rst]; simpl; [reflexivity |].
  now intros ->%negb_true_iff.
Qed.

Section Steps.
Context {R : Type} (k : mstate -> option R) (x : R).

Lemma m_seq_ok (a b : regex) (st : mstate) :
  m a R st (fun st' => m b R st' k) = Some x -> m (Seq a b) R st k = Some x.
Proof. exact (fun H => H). Qed.

Lemma m_lit_ok (c c' : Z) (bef rst : list Z) (cs : list (string * list Z)) :
  (c' =? c) = true ->
  k (MState (c' :: bef) rst cs) = Some x ->
  m (Lit c) R (MState bef (c' :: rst) cs) k = Some x.
Proof. intros E H. simpl. now rewrite E. Qed.

Lemma m_cls_ok (p : Z -> bool) (c' : Z) (bef rst : list Z)
  (cs : list (string * list Z)) :
  p c' = true ->
  k (MState (c' :: bef) rst cs) = Some x ->
  m (Cls p) R (MState bef (c' :: rst) cs) k = Some x.
Proof. intros E H. simpl. now rewrite E. Qed.

Lemma m_grp_ok (n : string) (r : regex) (bef rst : list Z)
  (cs : list (string * list Z)) :
  m r R (MState bef rst cs)
    (fun st' => k (MState (before st') (rest st')
                          ((n, consumed (MState bef [] []) st') :: caps st')))
  = Some x ->
  m (Grp n r) R (MState bef rst cs) k = Some x.
Proof. exact (fun H => H). Qed.

Lemma m_star_ok (p : Z -> bool) (bef rst : list Z)
  (cs : list (string * list Z)) :
  star_greedy p bef rst cs k = Some x ->
  m (Star p) R (MState bef rst cs) k = Some x.
Proof. exact (fun H => H). Qed.

Lemma star_greedy_stop_ok (p : Z -> bool) (bef rst : list Z)
  (cs : list (string * list Z)) :
  stops p rst = true ->
  k (MState bef rst cs) = Some x ->
  star_greedy p bef rst cs k = Some x.
Proof. intros H E. now rewrite star_greedy_stop. Qed.
Lemma m_opt_take_ok (r : regex) (st : mstate) :
  m r R st k = Some x -> m (Opt r) R st k = Some x.
Proof. intros H. simpl. now rewrite H. Qed.

Lemma m_opt_skip_ok (r : regex) (st : mstate) :
  m r R st k = None -> k st = Some x -> m (Opt r) R st k = Some x.
Proof. intros N H. simpl. now rewrite N. Qed.

Lemma m_alt_left_ok (a b : regex) (st : mstate) :
  m a R st k = Some x -> m (Alt a b) R st k = Some x.
Proof. intros H. simpl. now rewrite H. Qed.

Lemma m_alt_right_ok (a b : regex) (st : mstate) :
  m a R st k = None -> m b R st k = Some x -> m (Alt a b) R st k = Some x.
Proof. intros N H. simpl. now rewrite N. Qed.

Lemma star_greedy_all_ok (p : Z -> bool) (l bef : list Z)
  (cs : list (string * list Z)) :
  forallb p l = true ->
  k (MState (rev l ++ bef) [] cs) = Some x ->
  star_greedy p bef l cs k = Some x.
Proof.
  revert bef. induction l as [| c l IH]; intros bef Hl H.
  - exact H.
  - cbn [forallb] in Hl. apply andb_true_iff in Hl as [Hc Hl].
    apply star_greedy_more; [exact Hc |].
    apply IH; [exact Hl |]. cbn [rev] in H. now rewrite <- app_assoc in H.
Qed.
End Steps.

Ltac prefix_of B B' :=
  lazymatch B' with
  | B => constr:(@nil Z)
  | ?a :: ?t => let l := prefix_of B t in constr:(a :: l)
  end.

Ltac consume :=
  repeat match goal with
    | |- context [consumed (MState ?B ?r ?c) (MState ?B' ?r' ?c')] =>
        let l := prefix_of B B' in
        change (consumed (MState B r c) (MState B' r' c'))
          with (consumed (MState B r c) (MState (l ++ B) r' c'));
        rewrite (consumed_app l B r r' c c')
    end.

Ltac step :=
  cbv beta; cbn [before rest caps]; consume;
  lazymatch goal with
  | |- m (Seq _ _) _ _ _ = Some _ => apply m_seq_ok
  | |- m (Lit _) _ _ _ = Some _ => apply m_lit_ok; [reflexivity |]
  | |- m (Cls _) _ _ _ = Some _ => apply m_cls_ok; [reflexivity |]
  | |- m (Grp _ _) _ _ _ = Some _ => apply m_grp_ok
  | |- m (Star _) _ _ _ = Some _ => apply m_star_ok
  | |- star_greedy _ _ _ _ _ = Some _ =>
      first [ apply star_greedy_more; [reflexivity |]
            | apply star_greedy_stop_ok; [reflexivity || assumption |]
            | apply star_greedy_all_ok; [assumption |] ]
  | |- m (Opt _) _ _ _ = Some _ =>
      first [ apply m_opt_skip_ok; [reflexivity |] | apply m_opt_take_ok ]
  | |- m (Alt _ _) _ _ _ = Some _ =>
      first [ apply m_alt_right_ok; [reflexivity |] | apply m_alt_left_ok ]
  end.


Ltac finish := cbv beta; cbn [before rest caps]; consume; reflexivity.

Lemma attribute_text_match (B post : str) :
  stops non_space post = true ->
  exists e, match_at attributes_re B (attribute_text ++ post)
            = Some (Match (MState B (attribute_text ++ post) []) e) /\
            caps e = attribute_caps.
Proof.
  intros Hpost. eexists. unfold match_at.
  let t := eval lazy in attribute_text in change attribute_text with t.
  cbn [app].
  let r := eval lazy -[is_decimal is_space non_space Z.eqb orb negb]
           in attributes_re in
  change attributes_re with r.
  split; [repeat step; finish | reflexivity].
Qed.

Lemma m_lit_mismatch {R : Type} (s bef rst : list Z)
  (cs : list (string * list Z)) (k : mstate -> option R) :
  startswith s rst = false -> m (lit s) R (MState bef rst cs) k = None.
Proof.
  revert bef rst k. induction s as [| c s IH]; intros bef rst k H.
  - discriminate.
  - destruct rst as [| c' rst]; destruct s as [| d s];
      try reflexivity; simpl in H |- *;
      rewrite (Z.eqb_sym c' c); destruct (c =? c'); try reflexivity.
    + discriminate.
    + apply (IH (c' :: bef) rst). exact H.
Qed.

Lemma search_from_hit (r : regex) (bef rst : list Z) (mo : match_obj) :
  match_at r bef rst = Some mo -> search_from r bef rst = Some mo.
Proof.
  intros H. destruct rst; simpl; now rewrite H.
Qed.

(** A search for a pattern that starts with the literal [lead] passes over
    a prefix at none of whose positions [lead] starts. *)
Lemma search_from_skips (lead : list Z) (r : regex) (pre bef s : list Z) :
  (forall a b, pre = a ++ b -> b <> [] -> startswith lead (b ++ s) = false) ->
  search_from (Seq (lit lead) r) bef (pre ++ s)
  = search_from (Seq (lit lead) r) (rev pre ++ bef) s.
Proof.
  revert bef. induction pre as [| c pre IH]; intros bef H; [reflexivity |].
  cbn [app search_from]. unfold match_at at 1. cbn [m].
  rewrite m_lit_mismatch by (apply (H [] (c :: pre)); [reflexivity | discriminate]).
  rewrite IH.
  - cbn [rev]. now rewrite <- app_assoc.
  - intros a b -> Hb. apply (H (c :: a) b); [reflexivity | exact Hb].
Qed.

Lemma lead_not_across (pre s : list Z) :
  contains (u "St:") pre = false ->
  forall a b, pre = a ++ b -> b <> [] ->
              startswith (u "St:") (b ++ attribute_text ++ s) = false.
Proof.
  intros H a b -> Hb.
  assert (Hc : contains (u "St:") b = false).
  { clear Hb. induction a as [| c a IH]; [exact H |].
    apply IH. cbn [app] in H. simpl in H. now apply orb_false_iff in H as [_ H]. }
  clear H.
  destruct b as [| c1 b]; [congruence |]. clear Hb.
  cbn [contains] in Hc. apply orb_false_iff in Hc as [Hs _].
  change (u "St:") with [83; 116; 58] in *.
  let t := eval lazy in attribute_text in change attribute_text with t.
  destruct b as [| c2 [| c3 b]]; cbn [app startswith] in *.
  - destruct (83 =? c1); [reflexivity | reflexivity].
  - destruct (83 =? c1); [| reflexivity]. destruct (116 =? c2); reflexivity.
  - exact Hs.
Qed.

Lemma attributes_search (pre post : str) :
  contains (u "St:") pre = false ->
  stops non_space post = true ->
  exists mo, re_search attributes_re (pre ++ attribute_text ++ post) = Some mo /\
             caps (m_end mo) = attribute_caps.
Proof.
  intros Hpre Hpost. unfold re_search.
  destruct (attribute_text_match (rev pre ++ []) post Hpost) as (e & He & Hc).
  exists (Match (MState (rev pre ++ []) (attribute_text ++ post) []) e).
  split; [| exact Hc].
  let r := eval cbv [attributes_re seqs] in attributes_re in
  lazymatch r with
  | Seq _ ?r' =>
      pose proof (search_from_skips (u "St:") r' pre [] (attribute_text ++ post)
                    (lead_not_across pre post Hpre)) as Hs
  end.
  etransitivity; [exact Hs |].
  apply search_from_hit. exact He.
Qed.

Lemma status_text_match (B tail : str) :
  forallb is_space tail = true ->
  exists e, match_at stats_re B (status_text ++ tail)
            = Some (Match (MState B (status_text ++ tail) []) e) /\
            caps e = status_caps.
Proof.
  intros Htail. eexists. unfold match_at.
  let t := eval lazy in status_text in change status_text with t.
  cbn [app].
  let r := eval lazy -[is_decimal is_space non_space Z.eqb orb negb]
           in stats_re in
  change stats_re with r.
  split; [repeat step; finish | reflexivity].
Qed.

Section StatusRows.
Context {T : Type}.

(** C5, as the code has it.  On a frame whose status row text is
    "Dlvl:5 $:120 HP:10(20) Pw:3(5) AC:8 Exp:3 Hungry", alone or followed
    by white space, [_parse_stats] stores dlvl=5 as an integer, like every
    other group made of digits (money=120, hp=10, hp_max=20, pw=3, pw_max=5,
    ac=8, exp=3), hunger="Hungry", and None for stun, conf, blind, burden
    and hallu. *)
Theorem parse_stats_hungry (p : Player T) (tail : str) :
  forallb is_space tail = true ->
  row_text p 23 = Ok (status_text ++ tail) ->
  _parse_stats p = Ok (set_stats p hungry_stats).
Proof.
  intros Htail Hrow. unfold _parse_stats. rewrite Hrow. unfold bind at 1.
  destruct (status_text_match [] tail Htail) as (e & He & Hc).
  unfold re_search. rewrite (search_from_hit _ _ _ _ He).
  unfold groupdict, group. cbn [m_end]. rewrite Hc. reflexivity.
Qed.

(** C6, as the code has it.  On a frame whose attribute row contains
    "St:18/02 Dx:12 Co:14 In:10 Wi:9 Ch:8 Lawful", after a text without
    "St:" and up to the end of the row or a white space, [_parse_attributes]
    stores st="18/02", align="Lawful" and the other five scores as the texts
    "12", "14", "10", "9" and "8": no group is converted to an integer. *)
Theorem parse_attributes_lawful (p : Player T) (pre post : str) :
  contains (u "St:") pre = false ->
  stops non_space post = true ->
  row_text p 22 = Ok (pre ++ attribute_text ++ post) ->
  _parse_attributes p = Ok (set_attributes p lawful_attributes).
Proof.
  intros Hpre Hpost Hrow. unfold _parse_attributes. rewrite Hrow.
  unfold bind at 1.
  destruct (attributes_search pre post Hpre Hpost) as (mo & -> & Hc).
  unfold groupdict, group. rewrite Hc. reflexivity.
Qed.
End StatusRows.

Lemma parse_stats_hungry_witness :
  _parse_stats status_screen_player
  = Ok (set_stats status_screen_player hungry_stats).
Proof.
  apply (parse_stats_hungry status_screen_player (repeat 32 32%nat));
    reflexivity.
Defined.

Lemma parse_attributes_lawful_witness :
  _parse_attributes status_screen_player
  = Ok (set_attributes status_screen_player lawful_attributes).
Proof.
  apply (parse_attributes_lawful status_screen_player
           hero_title (repeat 32 15%nat)); reflexivity.
Defined.

(** C5 as the claim words it fails: dlvl is stored as the integer 5, not as
    the text "5". *)
Lemma dlvl_is_coerced_to_an_integer :
  exists p', _parse_stats status_screen_player = Ok p' /\
             dict_get String.eqb "dlvl"%string (stats p') = Some (VInt 5) /\
             dict_get String.eqb "dlvl"%string (stats p') <> Some (VStr (u "5")).
Proof.
  eexists. split; [vm_compute; reflexivity |].
  split; [reflexivity | discriminate].
Qed.

(** C6 as the claim words it fails: dx is stored as the text "12", not as the
    integer 12, and no value of the record is an integer. *)
Lemma attributes_are_not_integers :
  exists p' d, _parse_attributes status_screen_player = Ok p' /\
               attributes p' = Some d /\
               dict_get String.eqb "dx"%string d = Some (VStr (u "12")) /\
               dict_get String.eqb "dx"%string d <> Some (VInt 12) /\
               forallb (fun kv => match snd kv with VInt _ => false | _ => true end)
                       d = true.
Proof.
  eexists. eexists. split; [vm_compute; reflexivity |].
  split; [reflexivity |].
  repeat split; try reflexivity; discriminate.
Qed.

(** ** Inventory extraction *)

Lemma bind_ok {A B : Type} (x : result A) (f : A -> result B) (b : B) :
  bind x f = Ok b -> exists a, x = Ok a /\ f a = Ok b.
Proof.
  destruct x as [a | e]; simpl; [| discriminate].
  intros H. now exists a.
Qed.

Lemma scan_categories_found (frame : bytes) (ks : list category)
  (inv inv' : list (category * slots)) (found found' : bool) :
  foldM (scan_category frame) ks (inv, found) = Ok (inv', found') ->
  found' = found || existsb (fun k => find (category_name k) frame >? 0) ks.
Proof.
  revert inv found. induction ks as [| k ks IH]; intros inv found H.
  - simpl in H. injection H as _ <-. now rewrite orb_false_r.
  - simpl in H. apply bind_ok in H as ([inv1 found1] & Hk & Hks).
    apply IH in Hks. subst found'. simpl existsb.
    unfold scan_category in Hk.
    destruct (dict_get category_eqb k inv);
      destruct (find (category_name k) frame >? 0);
      try (apply bind_ok in Hk as (cs & _ & Hk));
      injection Hk as _ <-;
      now rewrite ?orb_true_r, ?orb_false_l, ?orb_assoc, ?orb_false_r.
Qed.

(** What [_parse_inventory] leaves in the re-request flag: it is set when
    no label is found at an offset above 0. *)
Lemma need_inventory_after_parse {T : Type} (p p' : Player T) (frame : bytes) :
  _parse_inventory p frame = Ok p' ->
  _need_inventory p' =
  negb (existsb (fun k => find (category_name k) frame >? 0) CATEGORIES).
Proof.
  unfold _parse_inventory. intros H.
  apply bind_ok in H as ([inv found] & Hf & H).
  injection H as <-. simpl.
  apply scan_categories_found in Hf. now rewrite Hf.
Qed.

(** C9.  A frame that starts with the label "Weapons", followed by the
    record of a dagger, is read as showing no inventory: offset 0 of the
    label fails the test [i > 0], the slot map of the weapons stays empty
    and the re-request flag is set.  The same frame after one space is read
    in full. *)
Theorem label_at_frame_start_is_missed :
  find (category_name Weapons) bare_weapons_frame = 0 /\
  (exists p', _parse_inventory fresh_player bare_weapons_frame = Ok p' /\
              dict_get category_eqb Weapons (inventory p') = Some [] /\
              _need_inventory p' = true) /\
  (exists p', _parse_inventory fresh_player (32 :: bare_weapons_frame) = Ok p' /\
              dict_get category_eqb Weapons (inventory p')
              = Some [(u "a", new_item Weapons (u "a dagger"))] /\
              _need_inventory p' = false).
Proof.
  split; [reflexivity |].
  split; eexists; (split; [vm_compute; reflexivity |]); split; reflexivity.
Qed.

(** ** The reply to an inventory request *)

Section InventoryReply.
Context {T : Type} {strategy : Strategy T} {term : Ansiterm T}.

Lemma read_rows_keep_control (t : T) (ys : list nat) (p p' : Player T) :
foldM (read_row t) ys p = Ok p' -> control p' = control p.
Proof.
revert p. induction ys as [| y ys IH]; intros p H; simpl in H.
- now injection H as <-.
- apply bind_ok in H as (p1 & Hy & H). rewrite (IH _ H).
  unfold read_row in Hy.
  apply bind_ok in Hy as (g & _ & Hy).
  apply bind_ok in Hy as (b & _ & Hy).
  apply bind_ok in Hy as (r & _ & Hy).
  now injection Hy as <-.
Qed.

Lemma parse_message_keeps_control (p p' : Player T) :
_parse_message p = Ok p' -> control p' = control p.
Proof.
unfold _parse_message. intros H. apply bind_ok in H as (l & _ & H).
destruct (_ && _); now injection H as <-.
Qed.

Lemma parse_attributes_keeps_control (p p' : Player T) :
_parse_attributes p = Ok p' -> control p' = control p.
Proof.
unfold _parse_attributes. intros H. apply bind_ok in H as (l & _ & H).
destruct (re_search attributes_re l); now injection H as <-.
Qed.

Lemma parse_stats_keeps_control (p p' : Player T) :
_parse_stats p = Ok p' -> control p' = control p.
Proof.
unfold _parse_stats. intros H. apply bind_ok in H as (l & _ & H).
destruct (re_search stats_re l).
- apply bind_ok in H as (d & _ & H). now injection H as <-.
- now injection H as <-.
Qed.

(** Reading the screen does not touch the command, the continuation flag
  or the inventory. *)
Lemma parse_glyphs_keeps_control (p p' : Player T) (frame : bytes) :
_parse_glyphs p frame = Ok p' -> control p' = control p.
Proof.
unfold _parse_glyphs. intros H.
apply bind_ok in H as (p1 & H1 & H).
apply bind_ok in H as (hood & _ & H).
apply bind_ok in H as (p2 & H2 & H).
apply bind_ok in H as (p3 & H3 & H).
rewrite (parse_stats_keeps_control _ _ H),
  (parse_attributes_keeps_control _ _ H3),
  (parse_message_keeps_control _ _ H2).
apply read_rows_keep_control in H1. exact H1.
Qed.

(** [_observe] on the reply to an inventory request: the map is emptied
  first unless the continuation flag, which the frame before has set, is
  on; the markers of the new frame play no part. *)
Lemma observe_inventory_reply (p p1 : Player T) (frame : bytes) :
is_inventory_command (_command p) = true ->
_parse_glyphs p frame = Ok p1 ->
_observe p frame =
(p2 <- _parse_inventory
         (if _has_more p then p1 else set_inventory p1 []) frame ;;
 Ok (set_has_more (set_command p2 None) (shows_marker frame))).
Proof.
intros Hc Hg. unfold _observe. rewrite Hg. unfold bind at 1.
pose proof (parse_glyphs_keeps_control _ _ _ Hg) as K.
unfold control in K. injection K as Kc Km _ _.
rewrite Kc, Km, Hc. now destruct (_has_more p).
Qed.

(** [_act] never sends the inventory command while a continuation is
  pending. *)
Lemma act_inventory_without_more (p p' : Player T) (draw : nat) (c : str) :
_act p draw = Ok (p', c) -> c = CMD.INVENTORY ->
_has_more p' = false /\ is_inventory_command (_command p') = true.
Proof.
unfold _act, act_branch. intros H ->.
apply bind_ok in H as (c & Hc & H). injection H as <- ->. simpl.
split; [| reflexivity].
destruct (_has_more p); [| reflexivity].
injection Hc as Hc. discriminate.
Qed.

(** C2, as the code has it.  After [_act] sends the inventory command, the
  next frame observed is read as a fresh listing: the inventory map is
  emptied before the extraction, whether or not that frame shows a
  continuation marker. *)
Theorem inventory_reply_starts_from_scratch
(p p' p1 : Player T) (draw : nat) (c : str) (frame : bytes) :
_act p draw = Ok (p', c) -> c = CMD.INVENTORY ->
_parse_glyphs p' frame = Ok p1 ->
_observe p' frame =
(p2 <- _parse_inventory (set_inventory p1 []) frame ;;
 Ok (set_has_more (set_command p2 None) (shows_marker frame))).
Proof.
intros Ha Hc Hg.
destruct (act_inventory_without_more _ _ _ _ Ha Hc) as [Hm Hi].
rewrite (observe_inventory_reply _ _ _ Hi Hg). now rewrite Hm.
Qed.
End InventoryReply.

Lemma inventory_reply_starts_from_scratch_witness :
  let p' := after_act (@_act unit (RandomMover unit) fresh_player 0) in
  let p1 := after_glyphs (@_parse_glyphs unit SilentTerm p' weapons_page) in
  @_observe unit SilentTerm p' weapons_page =
  (p2 <- _parse_inventory (set_inventory p1 []) weapons_page ;;
   Ok (set_has_more (set_command p2 None) (shows_marker weapons_page))).
Proof.
  cbv zeta.
  apply (@inventory_reply_starts_from_scratch unit (RandomMover unit)
           SilentTerm fresh_player _ _ 0%nat CMD.INVENTORY weapons_page);
    vm_compute; reflexivity.
Defined.

(** C2 as the claim words it fails: a player who holds a dagger asks for the
    inventory, the reply shows the armor and "(end)", a continuation marker,
    and the dagger is gone from the map. *)
Lemma marker_does_not_keep_the_inventory :
  exists p1 p2,
    @_act unit (Rechecker unit) armed_player 0 = Ok (p1, CMD.INVENTORY) /\
    shows_marker armor_page = true /\
    dict_get category_eqb Weapons (inventory p1)
    = Some [(u "a", new_item Weapons (u "a dagger"))] /\
    @_observe unit SilentTerm p1 armor_page = Ok p2 /\
    dict_get category_eqb Weapons (inventory p2) = Some [] /\
    dict_get category_eqb Armor (inventory p2)
    = Some [(u "b", new_item Armor (u "a cloak"))].
Proof.
  eexists. eexists.
  split; [vm_compute; reflexivity |].
  split; [vm_compute; reflexivity |].
  split; [vm_compute; reflexivity |].
  split; [vm_compute; reflexivity |].
  split; vm_compute; reflexivity.
Qed.

(** The page after a continuation is not read at all: [_act] has replaced
    the inventory command by the acknowledgment, and [_observe] reads the
    inventory only in reply to the inventory command.  Here the cloak of the
    second page never reaches the map. *)
Lemma continuation_page_is_not_read :
  exists p,
    @copy_loop unit (RandomMover unit) SilentTerm fresh_player
      [(u "NetHack", 0%nat); (weapons_page, 0%nat); (armor_page, 0%nat)]
    = Ok (p, [CMD.INVENTORY; CMD.MORE; CMD.MORE]) /\
    dict_get category_eqb Weapons (inventory p)
    = Some [(u "a", new_item Weapons (u "a dagger"))] /\
    dict_get category_eqb Armor (inventory p) = Some [].
Proof.
  eexists. split; [vm_compute; reflexivity |].
  split; vm_compute; reflexivity.
Qed.

(** ** The neighbourhood of the cursor *)

(** C1.  Near the bottom and the right edge [neighborhood] does not return
    the grid the claim describes.  On a screen of 24 rows and 80 columns
    and for radius 3: with the cursor at row 19, or at column 78, the copy
    into the grid raises [ValueError]; with the cursor at row 23 the grid
    comes back, and its row 1, which stands for screen row 21 below the
    playfield window, repeats the glyphs of screen row 20 instead of zeros.
    The default screen of 40 rows and 120 columns fails in the same way at
    row 36. *)
Theorem neighborhood_fails_near_bottom_and_right :
  neighborhood (player_at (coded_screen 24 80) (19, 40)) 3 = Raise ValueError /\
  neighborhood (player_at (coded_screen 24 80) (10, 78)) 3 = Raise ValueError /\
  neighborhood (player_at (coded_screen 40 120) (36, 60)) 3 = Raise ValueError /\
  (exists hood,
     neighborhood (player_at (coded_screen 24 80) (23, 40)) 3 = Ok hood /\
     get2 hood 1 3 = glyph_at (coded_screen 24 80) 20 40 /\
     get2 hood 1 3 = Some 93).
Proof.
  repeat split; try (vm_compute; reflexivity).
  eexists. split; [vm_compute; reflexivity |].
  split; vm_compute; reflexivity.
Qed.

Lemma nth_error_mapi_from {A B : Type} (f : nat -> A -> B) (l : list A)
  (s i : nat) :
  nth_error (mapi_from f s l) i = option_map (f (s + i)%nat) (nth_error l i).
Proof.
  revert s i. induction l as [| a l IH]; intros s i.
  - now destruct i.
  - destruct i as [| i]; simpl.
    + now rewrite Nat.add_0_r.
    + rewrite IH. now rewrite Nat.add_succ_r.
Qed.

Lemma nth_error_mapi {A B : Type} (f : nat -> A -> B) (l : list A) (i : nat) :
  nth_error (mapi f l) i = option_map (f i) (nth_error l i).
Proof.
  unfold mapi. now rewrite nth_error_mapi_from.
Qed.

Lemma nth_error_repeat_lt {A : Type} (a : A) (n i : nat) :
  (i < n)%nat -> nth_error (repeat a n) i = Some a.
Proof.
  revert i. induction n as [| n IH]; intros i H; [lia |].
  destruct i as [| i]; simpl; [reflexivity |]. apply IH. lia.
Qed.

Lemma nth_error_window {A : Type} (l : list A) (s len i : nat) :
  (i < len)%nat ->
  nth_error (firstn len (skipn s l)) i = nth_error l (s + i).
Proof.
  intros H. rewrite nth_error_firstn.
  destruct (i <? len)%nat eqn:E; [| apply Nat.ltb_ge in E; lia].
  now rewrite nth_error_skipn.
Qed.

(** One axis of the window, away from the high edge. *)
Lemma axis_spans (n : nat) (c r : Z) :
  0 <= r -> 0 <= c -> c + r + 1 <= Z.of_nat n ->
  let lo := if c <? r then 0 else c - r in
  let ulo := if c <? r then r - c else 0 in
  slice_span n lo (c + r + 1) = (Z.to_nat lo, Z.to_nat (2 * r + 1 - ulo)) /\
  slice_span (Z.to_nat (2 * r + 1)) ulo (2 * r + 1)
  = (Z.to_nat ulo, Z.to_nat (2 * r + 1 - ulo)) /\
  0 <= ulo <= r /\ 0 <= lo /\ lo = c - r + ulo /\ (ulo = 0 \/ lo = 0).
Proof.
  intros Hr Hc Hn. cbv zeta. unfold slice_span, slice_index.
  destruct (c <? r) eqn:E; [apply Z.ltb_lt in E | apply Z.ltb_ge in E].
  - replace (0 <? 0) with false by reflexivity.
    destruct (c + r + 1 <? 0) eqn:E1; [apply Z.ltb_lt in E1; lia |].
    destruct (r - c <? 0) eqn:E2; [apply Z.ltb_lt in E2; lia |].
    destruct (2 * r + 1 <? 0) eqn:E3; [apply Z.ltb_lt in E3; lia |].
    repeat split; try lia; f_equal; lia.
  - destruct (c - r <? 0) eqn:E0; [apply Z.ltb_lt in E0; lia |].
    destruct (c + r + 1 <? 0) eqn:E1; [apply Z.ltb_lt in E1; lia |].
    replace (0 <? 0) with false by reflexivity.
    destruct (2 * r + 1 <? 0) eqn:E3; [apply Z.ltb_lt in E3; lia |].
    repeat split; try lia; f_equal; lia.
Qed.

Lemma get2_getslice {A : Type} (g : ndarray A) (ylo yhi xlo xhi : Z)
  (y0 h x0 w a b : nat) :
  wf_array g ->
  slice_span (nrows g) ylo yhi = (y0, h) ->
  slice_span (ncols g) xlo xhi = (x0, w) ->
  (a < h)%nat -> (b < w)%nat ->
  get2 (getslice g ylo yhi xlo xhi) a b = get2 g (y0 + a) (x0 + b).
Proof.
  intros [Hlen Hrows] Hy Hx Ha Hb. unfold get2, getslice. cbn [cells].
  rewrite nth_error_map. unfold slice at 2. rewrite Hlen, Hy.
  rewrite nth_error_window by assumption.
  destruct (nth_error (cells g) (y0 + a)) as [row |] eqn:E; [| reflexivity].
  cbn [option_map]. unfold slice.
  rewrite Forall_forall in Hrows.
  rewrite (Hrows row (nth_error_In _ _ E)), Hx.
  now apply nth_error_window.
Qed.

Lemma within_spec (s len i : nat) :
  within s len i = true <-> (s <= i < s + len)%nat.
Proof.
  unfold within. rewrite andb_true_iff, Nat.leb_le, Nat.ltb_lt. tauto.
Qed.

(** Copying a window of [g] into a square of zeros, when the window and the
    target region have the same extent. *)
Lemma setslice_window (g : ndarray Z) (n : nat)
  (ylo yhi xlo xhi ulo uhi vlo vhi : Z) (y0 x0 u0 v0 h w : nat) :
  wf_array g ->
  slice_span (nrows g) ylo yhi = (y0, h) ->
  slice_span (ncols g) xlo xhi = (x0, w) ->
  slice_span n ulo uhi = (u0, h) ->
  slice_span n vlo vhi = (v0, w) ->
  exists hood,
    setslice uint8 (NdArray n n (repeat (repeat 0 n) n)) ulo uhi vlo vhi
             (getslice g ylo yhi xlo xhi) = Ok hood /\
    nrows hood = n /\ ncols hood = n /\
    forall i j, (i < n)%nat -> (j < n)%nat ->
      get2 hood i j =
      Some (if within u0 h i && within v0 w j
            then match get2 g (y0 + (i - u0)) (x0 + (j - v0)) with
                 | Some v => uint8 v
                 | None => 0
                 end
            else 0).
Proof.
  intros Hg Hy Hx Hu Hv. unfold setslice. cbn [nrows ncols cells].
  rewrite Hu, Hv.
  replace (nrows (getslice g ylo yhi xlo xhi)) with h
    by (unfold getslice; cbn [nrows]; now rewrite Hy).
  replace (ncols (getslice g ylo yhi xlo xhi)) with w
    by (unfold getslice; cbn [ncols]; now rewrite Hx).
  rewrite !Nat.eqb_refl. cbn [orb andb].
  eexists. split; [reflexivity |]. cbn [nrows ncols].
  split; [reflexivity |]. split; [reflexivity |].
  intros i j Hi Hj. unfold get2 at 1. cbn [cells].
  rewrite nth_error_mapi, (nth_error_repeat_lt _ _ _ Hi). cbn [option_map].
  rewrite nth_error_mapi, (nth_error_repeat_lt _ _ _ Hj). cbn [option_map].
  f_equal.
  destruct (within u0 h i) eqn:Wi; [| reflexivity].
  destruct (within v0 w j) eqn:Wj; [| reflexivity].
  cbn [andb].
  apply within_spec in Wi. apply within_spec in Wj.
  assert (Ei : (if (h =? 1)%nat then 0%nat else (i - u0)%nat) = (i - u0)%nat).
  { destruct (h =? 1)%nat eqn:E; [apply Nat.eqb_eq in E; lia | reflexivity]. }
  assert (Ej : (if (w =? 1)%nat then 0%nat else (j - v0)%nat) = (j - v0)%nat).
  { destruct (w =? 1)%nat eqn:E; [apply Nat.eqb_eq in E; lia | reflexivity]. }
  rewrite Ei, Ej.
  rewrite (get2_getslice g ylo yhi xlo xhi y0 h x0 w) by (assumption || lia).
  reflexivity.
Qed.

Lemma in_screen_glyph (g : ndarray Z) (sy sx : Z) (a b : nat) :
  0 <= sy -> 0 <= sx -> a = Z.to_nat sy -> b = Z.to_nat sx ->
  match get2 g a b with Some v => uint8 v | None => 0 end = hood_cell g sy sx.
Proof.
  intros Hy Hx -> ->. unfold hood_cell, glyph_at.
  destruct (0 <=? sy) eqn:E1; [| apply Z.leb_gt in E1; lia].
  destruct (0 <=? sx) eqn:E2; [| apply Z.leb_gt in E2; lia].
  reflexivity.
Qed.

Lemma off_screen_glyph (g : ndarray Z) (sy sx : Z) :
  sy < 0 \/ sx < 0 -> hood_cell g sy sx = 0.
Proof.
  intros H. unfold hood_cell, glyph_at.
  destruct (0 <=? sy) eqn:E1; [apply Z.leb_le in E1 | reflexivity].
  destruct (0 <=? sx) eqn:E2; [apply Z.leb_le in E2; lia | reflexivity].
Qed.

Section Neighborhood.
Context {T : Type}.

(** Away from the bottom and the right edge, [neighborhood] does what C1
    says, the top and left edges and their corner included: the grid has
    [2 * radius + 1] rows and columns, the cell for a screen cell holds its
    glyph, as an [np.uint8], and the cells above or left of the screen are
    zero. *)
Lemma neighborhood_away_from_bottom_and_right
  (p : Player T) (y x radius : Z) :
  wf_array (glyphs p) ->
  cursor p = Some (y, x) ->
  0 <= radius -> 0 <= y -> 0 <= x ->
  y <= Z.of_nat (nrows (glyphs p)) - 3 - radius ->
  x <= Z.of_nat (ncols (glyphs p)) - 1 - radius ->
  exists hood,
    neighborhood p radius = Ok hood /\
    nrows hood = Z.to_nat (2 * radius + 1) /\
    ncols hood = Z.to_nat (2 * radius + 1) /\
    forall i j, (i < nrows hood)%nat -> (j < ncols hood)%nat ->
      get2 hood i j =
      Some (hood_cell (glyphs p) (y - radius + Z.of_nat i)
                      (x - radius + Z.of_nat j)).
Proof.
  intros Hg Hcur Hr Hy Hx Hbottom Hright.
  unfold neighborhood. rewrite Hcur. cbv beta iota zeta.
  destruct (axis_spans (nrows (glyphs p)) y radius) as (Sy & Su & Bu & By & Ey & Zy);
    try lia.
  destruct (axis_spans (ncols (glyphs p)) x radius) as (Sx & Sv & Bv & Bx & Ex & Zx);
    try lia.
  replace (y >? Z.of_nat (nrows (glyphs p)) - 3 - radius) with false
    by (symmetry; rewrite Z.gtb_ltb; apply Z.ltb_ge; lia).
  replace (x >? Z.of_nat (ncols (glyphs p)) - radius) with false
    by (symmetry; rewrite Z.gtb_ltb; apply Z.ltb_ge; lia).
  unfold np_zeros.
  replace (2 * radius + 1 <? 0) with false by (symmetry; apply Z.ltb_ge; lia).
  cbn [orb]. unfold bind.
  set (ylo := if y <? radius then 0 else y - radius) in *.
  set (ulo := if y <? radius then radius - y else 0) in *.
  set (xlo := if x <? radius then 0 else x - radius) in *.
  set (vlo := if x <? radius then radius - x else 0) in *.
  destruct (setslice_window (glyphs p) (Z.to_nat (2 * radius + 1))
              ylo (y + radius + 1) xlo (x + radius + 1)
              ulo (2 * radius + 1) vlo (2 * radius + 1) _ _ _ _ _ _
              Hg Sy Sx Su Sv) as (hood & Hs & Hn & Hm & Hcell).
  exists hood. split.
  - rewrite <- Hs. subst ylo ulo xlo vlo.
    destruct (y <? radius); destruct (x <? radius); reflexivity.
  - split; [exact Hn |]. split; [exact Hm |].
    intros i j Hi Hj. rewrite Hn in Hi. rewrite Hm in Hj.
    rewrite (Hcell i j Hi Hj). f_equal.
    destruct (within _ _ i) eqn:Wi; [apply within_spec in Wi |].
    + destruct (within _ _ j) eqn:Wj; [apply within_spec in Wj |].
      * cbn [andb]. apply in_screen_glyph; lia.
      * cbn [andb]. symmetry. apply off_screen_glyph. right.
        unfold within in Wj. apply andb_false_iff in Wj as [W | W];
          [apply Nat.leb_gt in W | apply Nat.ltb_ge in W]; lia.
    + cbn [andb]. symmetry. apply off_screen_glyph. left.
      unfold within in Wi. apply andb_false_iff in Wi as [W | W];
        [apply Nat.leb_gt in W | apply Nat.ltb_ge in W]; lia.
Qed.
End Neighborhood.

(** ** A whole turn

    One iteration of the loop in front of [guard_picture], from the state
    [play] sets up: the frame is observed, the prompt becomes the latest
    message, the two status rows are parsed, and the prompt is answered
    although the inventory has never been captured. *)
Lemma guard_prompt_turn :
  exists p,
    @copy_step _ (RandomMover _) PictureTerm
      (play_init (24%nat, 80%nat) guard_picture) (u "Really attack") 0
    = Ok (p, u "n") /\
    last_message p = guard_prompt ++ repeat 32 51%nat /\
    act_branch (set_command p None) = AnswerExpected /\
    _need_inventory p = true /\
    stats p = hungry_stats /\
    attributes p = Some lawful_attributes.
Proof.
  eexists. split; [vm_compute; reflexivity |].
  repeat split; vm_compute; reflexivity.
Qed.

(** * Further properties *)

(** ** More on the neighbourhood *)

Lemma length_mapi_from {A B : Type} (f : nat -> A -> B) (l : list A) (s : nat) :
  length (mapi_from f s l) = length l.
Proof.
  revert s. induction l as [| a l IH]; intros s; simpl; [reflexivity |].
  now rewrite IH.
Qed.

Lemma Forall_mapi_from {A B : Type} (f : nat -> A -> B) (P : B -> Prop)
  (l : list A) (s : nat) :
  (forall i a, In a l -> P (f i a)) -> Forall P (mapi_from f s l).
Proof.
  revert s. induction l as [| a l IH]; intros s H; simpl; constructor.
  - apply H. now left.
  - apply IH. intros i b Hb. apply H. now right.
Qed.

Lemma uint8_range (v : Z) : 0 <= uint8 v < 256.
Proof.
  unfold uint8. apply Z.mod_pos_bound. lia.
Qed.

(** The shape of an array after an assignment to a slice of it, and a
    property of its cells that the old cells and the converted values have. *)
Lemma setslice_keeps {A B : Type} (cast : B -> A) (P : A -> Prop)
  (a a' : ndarray A) (ulo uhi vlo vhi : Z) (src : ndarray B) :
  setslice cast a ulo uhi vlo vhi src = Ok a' ->
  (forall v, P (cast v)) ->
  Forall (fun row => length row = ncols a /\ Forall P row) (cells a) ->
  nrows a' = nrows a /\ ncols a' = ncols a /\
  length (cells a') = length (cells a) /\
  Forall (fun row => length row = ncols a' /\ Forall P row) (cells a').
Proof.
  unfold setslice. intros H Hcast Hold.
  destruct (slice_span (nrows a) ulo uhi) as [u0 hu].
  destruct (slice_span (ncols a) vlo vhi) as [v0 wv].
  destruct (_ && _); [| discriminate].
  injection H as <-. cbn [nrows ncols cells].
  repeat split; try reflexivity.
  - apply length_mapi_from.
  - rewrite Forall_forall in Hold.
    apply Forall_mapi_from. intros i row Hrow.
    destruct (Hold row Hrow) as [Hlen HP].
    split; [unfold mapi; now rewrite length_mapi_from |].
    apply Forall_mapi_from. intros j old Hin.
    rewrite Forall_forall in HP.
    destruct (_ && _); [| now apply HP].
    destruct (get2 src _ _); [apply Hcast | now apply HP].
Qed.

Lemma zeros_rows (n m : nat) (P : Z -> Prop) :
  P 0 ->
  Forall (fun row => length row = m /\ Forall P row) (repeat (repeat 0 m) n).
Proof.
  intros H0. apply Forall_forall. intros row Hrow.
  apply repeat_spec in Hrow. subst row. split; [apply repeat_length |].
  apply Forall_forall. intros v Hv. apply repeat_spec in Hv. now subst v.
Qed.

Section NeighborhoodGrid.
Context {T : Type}.

(** Whenever [neighborhood] returns, the grid has [2 * radius + 1] rows of
    [2 * radius + 1] cells, and every cell is a byte. *)
Theorem neighborhood_grid (p : Player T) (radius : Z) (hood : ndarray Z) :
  neighborhood p radius = Ok hood ->
  nrows hood = Z.to_nat (2 * radius + 1) /\
  ncols hood = Z.to_nat (2 * radius + 1) /\
  length (cells hood) = nrows hood /\
  Forall (fun row => length row = ncols hood /\
                     Forall (fun v => 0 <= v < 256) row) (cells hood).
Proof.
  unfold neighborhood. intros H.
  destruct (cursor p) as [[y x] |]; [| discriminate].
  cbv beta iota zeta in H.
  destruct (y <? radius), (x <? radius),
    (y >? Z.of_nat (nrows (glyphs p)) - 3 - radius),
    (x >? Z.of_nat (ncols (glyphs p)) - radius);
    (apply bind_ok in H as (zeros & Hz & H);
     unfold np_zeros in Hz; destruct (_ || _); [discriminate |];
     injection Hz as <-;
     apply (setslice_keeps _ (fun v => 0 <= v < 256)) in H;
     [ cbn [nrows ncols cells] in H;
       destruct H as (Hn & Hm & Hl & Hc);
       rewrite repeat_length in Hl;
       rewrite Hn, Hm; repeat split; try assumption; try lia;
       now rewrite Hm in Hc
     | apply uint8_range
     | apply zeros_rows; lia ]).
Qed.
End NeighborhoodGrid.

Lemma setslice_mismatch {A B : Type} (cast : B -> A) (a : ndarray A)
  (ulo uhi vlo vhi : Z) (src : ndarray B) :
  (nrows src <> snd (slice_span (nrows a) ulo uhi) /\ nrows src <> 1%nat) \/
  (ncols src <> snd (slice_span (ncols a) vlo vhi) /\ ncols src <> 1%nat) ->
  setslice cast a ulo uhi vlo vhi src = Raise ValueError.
Proof.
  unfold setslice. intros H.
  destruct (slice_span (nrows a) ulo uhi) as [u0 hu].
  destruct (slice_span (ncols a) vlo vhi) as [v0 wv].
  cbn [snd] in H.
  destruct H as [[H1 H2] | [H1 H2]];
    apply Nat.eqb_neq in H1; apply Nat.eqb_neq in H2; rewrite H1, H2;
    cbn [orb andb]; [reflexivity | now rewrite andb_false_r].
Qed.

Lemma slice_index_inside (n : nat) (i : Z) :
  0 <= i <= Z.of_nat n -> slice_index n i = Z.to_nat i.
Proof.
  intros H. unfold slice_index.
  destruct (i <? 0) eqn:E; [apply Z.ltb_lt in E; lia |].
  f_equal. lia.
Qed.

Section NeighborhoodBands.
Context {T : Type}.

(** Near the bottom or the right edge the copy into the grid cannot be
    made: with the cursor on a row strictly between [rows - 3 - radius] and
    [rows - 3], or on a column from [cols - radius] on, and at least [radius]
    cells away from the opposite edge, [neighborhood] raises [ValueError]. *)
Theorem neighborhood_raises_near_bottom_or_right
  (p : Player T) (y x radius : Z) :
  let rows := Z.of_nat (nrows (glyphs p)) in
  let cols := Z.of_nat (ncols (glyphs p)) in
  cursor p = Some (y, x) ->
  0 <= radius ->
  (radius <= y /\ rows - 3 - radius < y < rows - 3) \/
  (radius <= x /\ cols - radius <= x < cols) ->
  neighborhood p radius = Raise ValueError.
Proof.
  cbv zeta. intros Hcur Hr Hband. unfold neighborhood. rewrite Hcur.
  cbv beta iota zeta. unfold np_zeros.
  replace (2 * radius + 1 <? 0) with false by (symmetry; apply Z.ltb_ge; lia).
  cbn [orb]. unfold bind.
  set (rows := Z.of_nat (nrows (glyphs p))) in *.
  set (cols := Z.of_nat (ncols (glyphs p))) in *.
  destruct Hband as [[Hy Hb] | [Hx Hb]].
  - replace (y <? radius) with false by (symmetry; apply Z.ltb_ge; lia).
    replace (y >? rows - 3 - radius) with true
      by (symmetry; rewrite Z.gtb_ltb; apply Z.ltb_lt; lia).
    destruct (x <? radius), (x >? cols - radius);
      (apply setslice_mismatch; left; unfold getslice, slice_span;
       cbn [nrows ncols snd fst];
       rewrite !slice_index_inside by (subst rows; lia);
       subst rows; lia).
  - replace (x <? radius) with false by (symmetry; apply Z.ltb_ge; lia).
    destruct (x >? cols - radius) eqn:E;
      [ rewrite Z.gtb_ltb in E; apply Z.ltb_lt in E
      | rewrite Z.gtb_ltb in E; apply Z.ltb_ge in E ];
      destruct (y <? radius), (y >? rows - 3 - radius);
      (apply setslice_mismatch; right; unfold getslice, slice_span;
       cbn [nrows ncols snd fst];
       try rewrite (slice_index_inside _ (x - radius)) by (subst cols; lia);
       try rewrite (slice_index_inside _ cols) by (subst cols; lia);
       try rewrite (slice_index_inside _ (radius - (cols - x)))
         by (subst cols; lia);
       try rewrite (slice_index_inside _ 0) by lia;
       try rewrite (slice_index_inside _ (2 * radius + 1)) by lia;
       try (assert (Hc : slice_index (ncols (glyphs p)) (x + radius + 1)
                         = ncols (glyphs p))
             by (unfold slice_index;
                 destruct (x + radius + 1 <? 0) eqn:E1;
                 [apply Z.ltb_lt in E1; lia | subst cols; lia]);
            rewrite Hc);
       subst cols; lia).
Qed.
End NeighborhoodBands.

(** ** The message log *)

Lemma strip_visible (c : Z) (l : str) :
  is_space c = false -> exists t, strip (c :: l) = c :: t.
Proof.
  intros Hc. unfold strip, rstrip, lstrip. cbn [dropwhile]. rewrite Hc.
  cbn [rev].
  destruct (dropwhile_keeps_last is_space (rev l) c Hc) as [t E].
  rewrite E, rev_app_distr. now exists (rev t).
Qed.

Lemma strip_blank (c : Z) : is_space c = true -> strip [c] = [].
Proof.
  intros Hc. unfold strip, rstrip, lstrip. cbn [dropwhile]. now rewrite Hc.
Qed.

Lemma deque_append_length (ms : list str) (l : str) :
  (length ms <= 1000)%nat -> (length (deque_append ms l) <= 1000)%nat.
Proof.
  intros H. unfold deque_append.
  destruct (1000 <? length (ms ++ [l]))%nat eqn:E.
  - destruct ms as [| m0 ms]; cbn [app tl length] in *; [lia |].
    rewrite length_app. cbn [length]. lia.
  - now apply Nat.ltb_ge in E.
Qed.

Section Messages.
Context {T : Type}.

(** [_parse_message] logs the message row exactly when its first character
    is not white space; the test that the row is not blank adds nothing. *)
Theorem parse_message_first_character (p : Player T) (l : str) :
  row_text p 0 = Ok l ->
  _parse_message p =
  Ok (if first_is_visible l
      then set_messages p (deque_append (messages p) l)
      else p).
Proof.
  intros Hrow. unfold _parse_message. rewrite Hrow. unfold bind.
  destruct l as [| c l]; [reflexivity |]. cbn [first_is_visible].
  destruct (is_space c) eqn:Hc; cbn [negb].
  - rewrite (strip_blank c Hc). now rewrite andb_false_r.
  - destruct (strip_visible c l Hc) as [t ->].
    destruct (strip_visible c [] Hc) as [t' ->]. reflexivity.
Qed.

Lemma parse_message_bound (p p' : Player T) :
  _parse_message p = Ok p' ->
  (length (messages p) <= 1000)%nat -> (length (messages p') <= 1000)%nat.
Proof.
  unfold _parse_message. intros H Hb. apply bind_ok in H as (l & _ & H).
  destruct (_ && _); injection H as <-; [| exact Hb].
  now apply deque_append_length.
Qed.
End Messages.

(** ** Runs of the loop *)

Section Runs.
Context {T : Type} {strategy : Strategy T} {term : Ansiterm T}.

Lemma read_rows_keep_messages (t : T) (ys : list nat) (p p' : Player T) :
  foldM (read_row t) ys p = Ok p' -> messages p' = messages p.
Proof.
  revert p. induction ys as [| y ys IH]; intros p H; simpl in H.
  - now injection H as <-.
  - apply bind_ok in H as (p1 & Hy & H). rewrite (IH _ H).
    unfold read_row in Hy.
    apply bind_ok in Hy as (g & _ & Hy).
    apply bind_ok in Hy as (b & _ & Hy).
    apply bind_ok in Hy as (r & _ & Hy).
    now injection Hy as <-.
Qed.

Lemma parse_attributes_keeps_messages (p p' : Player T) :
  _parse_attributes p = Ok p' -> messages p' = messages p.
Proof.
  unfold _parse_attributes. intros H. apply bind_ok in H as (l & _ & H).
  destruct (re_search attributes_re l); now injection H as <-.
Qed.

Lemma parse_stats_keeps_messages (p p' : Player T) :
  _parse_stats p = Ok p' -> messages p' = messages p.
Proof.
  unfold _parse_stats. intros H. apply bind_ok in H as (l & _ & H).
  destruct (re_search stats_re l).
  - apply bind_ok in H as (d & _ & H). now injection H as <-.
  - now injection H as <-.
Qed.

Lemma parse_inventory_keeps_messages (p p' : Player T) (frame : bytes) :
  _parse_inventory p frame = Ok p' -> messages p' = messages p.
Proof.
  unfold _parse_inventory. intros H.
  apply bind_ok in H as ([inv found] & _ & H). now injection H as <-.
Qed.

Lemma observe_bound (p p' : Player T) (frame : bytes) :
  _observe p frame = Ok p' ->
  (length (messages p) <= 1000)%nat -> (length (messages p') <= 1000)%nat.
Proof.
  unfold _observe, _parse_glyphs. intros H Hb.
  apply bind_ok in H as (p1 & Hg & H).
  apply bind_ok in Hg as (q1 & H1 & Hg).
  apply bind_ok in Hg as (hood & _ & Hg).
  apply bind_ok in Hg as (q2 & H2 & Hg).
  apply bind_ok in Hg as (q3 & H3 & Hg).
  apply read_rows_keep_messages in H1. cbn [set_term messages] in H1.
  apply parse_message_bound in H2;
    [| cbn [set_cursor messages]; now rewrite H1].
  apply parse_attributes_keeps_messages in H3.
  apply parse_stats_keeps_messages in Hg.
  apply bind_ok in H as (p2 & Hi & H). injection H as <-.
  cbn [set_has_more set_command messages].
  destruct (is_inventory_command (_command p1)).
  - apply parse_inventory_keeps_messages in Hi. rewrite Hi.
    destruct (negb (_has_more p1)); cbn [set_inventory messages];
      now rewrite Hg, H3.
  - injection Hi as <-. now rewrite Hg, H3.
Qed.

Lemma act_keeps (p p' : Player T) (draw : nat) (c : str) :
  _act p draw = Ok (p', c) -> p' = set_command p (Some c).
Proof.
  unfold _act. intros H. apply bind_ok in H as (c' & _ & H).
  now injection H as <- <-.
Qed.

(** The message log never grows beyond 1000 entries, whatever is read and
    whatever the strategy does. *)
Theorem message_log_stays_bounded
  (p p' : Player T) (inputs : list (bytes * nat)) (cs : list str) :
  (length (messages p) <= 1000)%nat ->
  copy_loop p inputs = Ok (p', cs) ->
  (length (messages p') <= 1000)%nat.
Proof.
  revert p cs. induction inputs as [| [buf draw] inputs IH]; intros p cs Hb H.
  - simpl in H. now injection H as <- _.
  - simpl in H. apply bind_ok in H as ([p1 c] & Hs & H).
    apply bind_ok in H as ([p2 cs'] & Hl & H). injection H as <- _.
    apply (IH p1 cs'); [| exact Hl].
    unfold copy_step in Hs. apply bind_ok in Hs as (q & Ho & Ha).
    apply act_keeps in Ha. subst p1. cbn [set_command messages].
    destruct (nonempty buf).
    + now apply (observe_bound p q buf).
    + now injection Ho as <-.
Qed.

Lemma observe_flags (p p' : Player T) (frame : bytes) :
  _observe p frame = Ok p' ->
  _command p' = None /\ _has_more p' = shows_marker frame.
Proof.
  unfold _observe. intros H.
  apply bind_ok in H as (p1 & _ & H). apply bind_ok in H as (p2 & _ & H).
  now injection H as <-.
Qed.

Lemma marker_needs_bytes (buf : bytes) :
  shows_marker buf = true -> nonempty buf = true.
Proof.
  now destruct buf.
Qed.

Lemma marked_step (p p' : Player T) (buf : bytes) (draw : nat) (c : str) :
  copy_step p buf draw = Ok (p', c) ->
  shows_marker buf = true -> c = CMD.MORE.
Proof.
  unfold copy_step. intros H Hm. rewrite (marker_needs_bytes buf Hm) in H.
  apply bind_ok in H as (q & Ho & Ha).
  apply observe_flags in Ho as [_ Hmore]. rewrite Hm in Hmore.
  unfold _act, act_branch in Ha. rewrite Hmore in Ha.
  simpl in Ha. now injection Ha as _ <-.
Qed.

(** In every run, one command is written for each read, and a read that
    shows "--More--" or "(end)" is answered by the carriage return, before
    any strategy is asked. *)
Theorem markers_are_acknowledged
  (p p' : Player T) (inputs : list (bytes * nat)) (cs : list str) :
  copy_loop p inputs = Ok (p', cs) ->
  Forall2 (fun input c => shows_marker (fst input) = true -> c = CMD.MORE)
          inputs cs.
Proof.
  revert p cs. induction inputs as [| [buf draw] inputs IH]; intros p cs H.
  - simpl in H. injection H as _ <-. constructor.
  - simpl in H. apply bind_ok in H as ([p1 c] & Hs & H).
    apply bind_ok in H as ([p2 cs'] & Hl & H). injection H as <- <-.
    constructor; [| now apply (IH p1)].
    cbn [fst]. now apply (marked_step p p1 buf draw).
Qed.

Lemma observe_other_frame (p p' : Player T) (frame : bytes) :
  is_inventory_command (_command p) = false ->
  _observe p frame = Ok p' ->
  inventory p' = inventory p /\ _need_inventory p' = _need_inventory p.
Proof.
  unfold _observe. intros Hc H.
  apply bind_ok in H as (p1 & Hg & H).
  apply parse_glyphs_keeps_control in Hg. unfold control in Hg.
  injection Hg as Kc Km Kn Ki. rewrite Kc, Hc in H.
  unfold bind in H. injection H as <-.
  cbn [set_has_more set_command inventory _need_inventory]. now split.
Qed.

(** A frame that is not the reply to an inventory command is never read
    for the inventory: the map and the re-request flag stay as they were.
    After it no command is pending, and the continuation flag tells whether
    the frame shows a marker. *)
Theorem observe_without_request (p p' : Player T) (frame : bytes) :
  is_inventory_command (_command p) = false ->
  _observe p frame = Ok p' ->
  inventory p' = inventory p /\
  _need_inventory p' = _need_inventory p /\
  _command p' = None /\
  _has_more p' = shows_marker frame.
Proof.
  intros Hc H.
  destruct (observe_other_frame p p' frame Hc H) as [Hi Hn].
  destruct (observe_flags p p' frame H) as [Hcmd Hm].
  now repeat split.
Qed.
End Runs.

Section RandomMoverRuns.
Context {T : Type} {term : Ansiterm T}.

Lemma random_mover_action (p : Player T) (draw : nat) :
  exists c, @choose_action T (RandomMover T) p draw = Ok c /\
            In c [CMD.DIR.N; CMD.DIR.NE; CMD.DIR.E; CMD.DIR.SE;
                  CMD.DIR.S; CMD.DIR.SW; CMD.DIR.W; CMD.DIR.NW].
Proof.
  cbn [choose_action RandomMover]. eexists. split; [reflexivity |].
  pose proof (Nat.mod_upper_bound draw 8) as Hb.
  destruct (draw mod 8)%nat as [| [| [| [| [| [| [| [| n]]]]]]]];
    cbn [nth In]; try tauto. lia.
Qed.

(** [RandomMover] never raises, and what it sends is one of twelve keys:
    the carriage return, q, n, i and the eight directions. *)
Theorem random_mover_vocabulary (p : Player T) (draw : nat) :
  exists c, @_act T (RandomMover T) p draw = Ok (set_command p (Some c), c) /\
            In c random_mover_keys.
Proof.
  unfold _act.
  destruct (act_branch p);
    try (eexists; split; [reflexivity |]; cbn [In random_mover_keys]; tauto).
  destruct (random_mover_action p draw) as (c & -> & Hc).
  exists c. split; [reflexivity |].
  cbn [In random_mover_keys] in *. tauto.
Qed.

Lemma random_mover_no_request (p p' : Player T) (draw : nat) (c : str) :
  _need_inventory p = false ->
  @_act T (RandomMover T) p draw = Ok (p', c) ->
  is_inventory_command (_command p') = false /\ c <> CMD.INVENTORY /\
  inventory p' = inventory p /\ _need_inventory p' = false.
Proof.
  intros Hn H. pose proof (act_keeps _ _ _ _ H) as ->.
  cbn [set_command _command inventory _need_inventory].
  assert (Hc : is_inventory_command (Some c) = false).
  { unfold _act, act_branch in H. rewrite Hn in H.
    destruct (_has_more p); [simpl in H; now injection H as _ <- |].
    destruct (contains (u "You die") (last_message p));
      [simpl in H; now injection H as _ <- |].
    destruct (_ && _); [simpl in H; now injection H as _ <- |].
    destruct (random_mover_action p draw) as (c' & E & Hc).
    rewrite E in H. simpl in H. injection H as _ <-.
    cbn [In] in Hc.
    destruct Hc as [<- | [<- | [<- | [<- | [<- | [<- | [<- | [<- | []]]]]]]]];
      reflexivity. }
  repeat split; try assumption.
  intros ->. discriminate.
Qed.

(** Once the inventory has been captured, a run of [RandomMover] never asks
    for it again, and the map stays as it is to the end of the run. *)
Theorem random_mover_asks_once
  (p p' : Player T) (inputs : list (bytes * nat)) (cs : list str) :
  _need_inventory p = false ->
  is_inventory_command (_command p) = false ->
  @copy_loop T (RandomMover T) term p inputs = Ok (p', cs) ->
  inventory p' = inventory p /\ _need_inventory p' = false /\
  ~ In CMD.INVENTORY cs.
Proof.
  revert p cs. induction inputs as [| [buf draw] inputs IH];
    intros p cs Hn Hc H.
  - simpl in H. injection H as <- <-. now repeat split.
  - simpl in H. apply bind_ok in H as ([p1 c] & Hs & H).
    apply bind_ok in H as ([p2 cs'] & Hl & H). injection H as <- <-.
    unfold copy_step in Hs. apply bind_ok in Hs as (q & Ho & Ha).
    assert (Hq : inventory q = inventory p /\ _need_inventory q = false).
    { destruct (nonempty buf).
      - destruct (observe_other_frame p q buf Hc Ho) as [Hi Hq].
        split; [exact Hi | now rewrite Hq].
      - injection Ho as <-. now split. }
    destruct Hq as [Hi Hq].
    destruct (random_mover_no_request q p1 draw c Hq Ha)
      as (Hc1 & Hne & Hi1 & Hn1).
    destruct (IH p1 cs' Hn1 Hc1 Hl) as (Hi2 & Hn2 & Hnot).
    repeat split.
    + now rewrite Hi2, Hi1.
    + exact Hn2.
    + intros [E | E]; [now apply Hne | now apply Hnot].
Qed.
End RandomMoverRuns.

(** ** The planes of the screen *)

Lemma length_replace_nth {A : Type} (n : nat) (x : A) (l : list A) :
  length (replace_nth n x l) = length l.
Proof.
  revert n. induction l as [| a l IH]; intros [| n]; simpl; try reflexivity.
  now rewrite IH.
Qed.

Lemma nth_error_replace_nth {A : Type} (n i : nat) (x : A) (l : list A) :
  nth_error (replace_nth n x l) i =
  if (i =? n)%nat then (if (n <? length l)%nat then Some x else None)
  else nth_error l i.
Proof.
  revert n i. induction l as [| a l IH]; intros n i.
  - destruct n, i; simpl; try reflexivity.
    now destruct (i =? n)%nat.
  - destruct n as [| n], i as [| i]; simpl; try reflexivity.
    rewrite IH. reflexivity.
Qed.

Lemma Forall_replace_nth {A : Type} (P : A -> Prop) (n : nat) (x : A)
  (l : list A) :
  P x -> Forall P l -> Forall P (replace_nth n x l).
Proof.
  intros Hx Hl. revert n. induction Hl as [| a l Ha Hl IH]; intros [| n];
    simpl; constructor; auto.
Qed.

Lemma setrow_ok {A : Type} (zero : A) (a a' : ndarray A) (y : nat)
  (values : list A) :
  setrow a y values = Ok a' ->
  (y < nrows a)%nat /\ nrows a' = nrows a /\ ncols a' = ncols a /\
  length (row_values zero (ncols a) values) = ncols a /\
  cells a' = replace_nth y (row_values zero (ncols a) values) (cells a).
Proof.
  unfold setrow, row_values. intros H.
  destruct (nrows a <=? y)%nat eqn:E; [discriminate |].
  apply Nat.leb_gt in E.
  destruct (length values =? ncols a)%nat eqn:El.
  - injection H as <-. apply Nat.eqb_eq in El. now repeat split.
  - destruct values as [| v [| w values]]; try discriminate.
    injection H as <-. cbn [hd nrows ncols cells].
    repeat split; try assumption. apply repeat_length.
Qed.

Lemma setrow_wf {A : Type} (a a' : ndarray A) (y : nat) (values : list A) :
  setrow a y values = Ok a' -> wf_array a -> wf_array a' /\ shape a' = shape a.
Proof.
  unfold setrow, wf_array, shape. intros H [Hl Hr].
  destruct (nrows a <=? y)%nat; [discriminate |].
  destruct (length values =? ncols a)%nat eqn:El.
  - injection H as <-. apply Nat.eqb_eq in El. cbn [nrows ncols cells].
    rewrite length_replace_nth. repeat split; try assumption.
    now apply Forall_replace_nth.
  - destruct values as [| v [| w values]]; try discriminate.
    injection H as <-. cbn [nrows ncols cells].
    rewrite length_replace_nth. repeat split; try assumption.
    apply Forall_replace_nth; [apply repeat_length | assumption].
Qed.

Section Planes.
Context {T : Type} {term : Ansiterm T}.

Lemma read_row_screen (t : T) (p p' : Player T) (y : nat) :
  read_row t p y = Ok p' ->
  screen_ok p -> screen_ok p' /\ shape (glyphs p') = shape (glyphs p).
Proof.
  unfold read_row, screen_ok. intros H (Wg & Wb & Wr & Sb & Sr).
  apply bind_ok in H as (g & Hg & H).
  apply bind_ok in H as (b & Hb & H).
  apply bind_ok in H as (r & Hr & H).
  injection H as <-. cbn [set_reverse set_bold set_glyphs glyphs bold reverse].
  apply setrow_wf in Hg as [Wg' Sg']; [| exact Wg].
  apply setrow_wf in Hb as [Wb' Sb']; [| exact Wb].
  apply setrow_wf in Hr as [Wr' Sr']; [| exact Wr].
  split; [| exact Sg'].
  split; [exact Wg' |]. split; [exact Wb' |]. split; [exact Wr' |].
  split; congruence.
Qed.

Lemma read_rows_screen (t : T) (ys : list nat) (p p' : Player T) :
  foldM (read_row t) ys p = Ok p' ->
  screen_ok p -> screen_ok p' /\ shape (glyphs p') = shape (glyphs p).
Proof.
  revert p. induction ys as [| y ys IH]; intros p H Hp; simpl in H.
  - injection H as <-. now split.
  - apply bind_ok in H as (p1 & Hy & H).
    destruct (read_row_screen t p p1 y Hy Hp) as [H1 S1].
    destruct (IH p1 H H1) as [H2 S2]. split; [exact H2 | congruence].
Qed.

Lemma planes_screen (p q : Player T) :
  planes q = planes p -> screen_ok p ->
  screen_ok q /\ shape (glyphs q) = shape (glyphs p).
Proof.
  unfold planes, screen_ok. intros E H. injection E as -> -> ->. now split.
Qed.

Lemma parse_message_planes (p p' : Player T) :
  _parse_message p = Ok p' -> planes p' = planes p.
Proof.
  unfold _parse_message. intros H. apply bind_ok in H as (l & _ & H).
  destruct (_ && _); now injection H as <-.
Qed.

Lemma parse_attributes_planes (p p' : Player T) :
  _parse_attributes p = Ok p' -> planes p' = planes p.
Proof.
  unfold _parse_attributes. intros H. apply bind_ok in H as (l & _ & H).
  destruct (re_search attributes_re l); now injection H as <-.
Qed.

Lemma parse_stats_planes (p p' : Player T) :
  _parse_stats p = Ok p' -> planes p' = planes p.
Proof.
  unfold _parse_stats. intros H. apply bind_ok in H as (l & _ & H).
  destruct (re_search stats_re l).
  - apply bind_ok in H as (d & _ & H). now injection H as <-.
  - now injection H as <-.
Qed.

Lemma parse_inventory_planes (p p' : Player T) (frame : bytes) :
  _parse_inventory p frame = Ok p' -> planes p' = planes p.
Proof.
  unfold _parse_inventory. intros H.
  apply bind_ok in H as ([inv found] & _ & H). now injection H as <-.
Qed.

Lemma observe_planes (p p' : Player T) (frame : bytes) :
  _observe p frame = Ok p' ->
  exists q, foldM (read_row (feed (_term p) frame))
                  (seq 0 (nrows (glyphs p)))
                  (set_term p (feed (_term p) frame)) = Ok q /\
            planes p' = planes q /\
            (exists l, row_text q 23 = Ok l).
Proof.
  unfold _observe, _parse_glyphs. intros H.
  apply bind_ok in H as (p1 & Hg & H).
  apply bind_ok in Hg as (q1 & H1 & Hg).
  apply bind_ok in Hg as (hood & _ & Hg).
  apply bind_ok in Hg as (q2 & H2 & Hg).
  apply bind_ok in Hg as (q3 & H3 & Hg).
  exists q1. split; [exact H1 |].
  pose proof (parse_message_planes _ _ H2) as E2.
  pose proof (parse_attributes_planes _ _ H3) as E3.
  pose proof (parse_stats_planes _ _ Hg) as E4.
  assert (E : planes p1 = planes q1).
  { rewrite E4, E3, E2. reflexivity. }
  split.
  - apply bind_ok in H as (p2 & Hi & H). injection H as <-.
    change (planes p2 = planes q1). rewrite <- E.
    destruct (is_inventory_command (_command p1)).
    + apply parse_inventory_planes in Hi. rewrite Hi.
      now destruct (negb (_has_more p1)).
    + now injection Hi as <-.
  - unfold _parse_stats in Hg. apply bind_ok in Hg as (l & Hl & _).
    exists l. unfold row_text in *.
    assert (Eg : glyphs q3 = glyphs q1).
    { unfold planes in E2, E3. injection E2 as E2 _ _.
      injection E3 as E3 _ _. rewrite E3, E2. reflexivity. }
    now rewrite <- Eg.
Qed.

(** Observing a frame keeps the three planes of the screen well formed and
    of the shape they had. *)
Theorem observe_keeps_screen (p p' : Player T) (frame : bytes) :
  screen_ok p ->
  _observe p frame = Ok p' ->
  screen_ok p' /\ shape (glyphs p') = shape (glyphs p).
Proof.
  intros Hp H. apply observe_planes in H as (q & Hq & E & _).
  apply read_rows_screen in Hq as [Hq Sq]; [| exact Hp].
  destruct (planes_screen q p' E Hq) as [H1 S1].
  split; [exact H1 |]. rewrite S1. exact Sq.
Qed.

Lemma read_rows_count (t : T) (ys : list nat) (p p' : Player T) :
  foldM (read_row t) ys p = Ok p' ->
  length (cells (glyphs p')) = length (cells (glyphs p)).
Proof.
  revert p. induction ys as [| y ys IH]; intros p H; simpl in H.
  - now injection H as <-.
  - apply bind_ok in H as (p1 & Hy & H). rewrite (IH _ H).
    unfold read_row in Hy.
    apply bind_ok in Hy as (g & Hg & Hy).
    apply bind_ok in Hy as (b & _ & Hy).
    apply bind_ok in Hy as (r & _ & Hy).
    injection Hy as <-. cbn [set_reverse set_bold set_glyphs glyphs].
    apply (setrow_ok 0) in Hg as (_ & _ & _ & _ & ->).
    apply length_replace_nth.
Qed.

(** A screen of fewer than 24 rows cannot be observed: the status rows are
    read at the fixed indices 22 and 23, so no call of [_observe] returns. *)
Theorem observe_needs_24_rows (p p' : Player T) (frame : bytes) :
  (length (cells (glyphs p)) < 24)%nat ->
  _observe p frame <> Ok p'.
Proof.
  intros Hrows H. apply observe_planes in H as (q & Hq & _ & l & Hl).
  apply read_rows_count in Hq. cbn [set_term glyphs] in Hq.
  unfold row_text, getrow in Hl.
  destruct (nth_error (cells (glyphs q)) 23) eqn:E; [| discriminate].
  assert (N : nth_error (cells (glyphs q)) 23 <> None) by congruence.
  apply nth_error_Some in N. lia.
Qed.
End Planes.

Section Mirror.
Context {T : Type} {term : Ansiterm T}.

Lemma read_rows_cells (t : T) (n a : nat) (p p' : Player T) :
  foldM (read_row t) (seq a n) p = Ok p' ->
  length (cells (glyphs p)) = nrows (glyphs p) ->
  let X := ncols (glyphs p) in
  (forall y, (a <= y < a + n)%nat ->
     nth_error (cells (glyphs p')) y =
     Some (row_values 0 X (map glyph_code (get_tiles t (X * y) (X * (y + 1)))))) /\
  (forall y, (y < a)%nat ->
     nth_error (cells (glyphs p')) y = nth_error (cells (glyphs p)) y).
Proof.
  cbv zeta. revert a p. induction n as [| n IH]; intros a p H Hl.
  - simpl in H. injection H as <-. split; [intros y Hy; lia | reflexivity].
  - cbn [seq foldM] in H. apply bind_ok in H as (p1 & Hy & H).
    unfold read_row in Hy.
    apply bind_ok in Hy as (g & Hg & Hy).
    apply bind_ok in Hy as (b & _ & Hy).
    apply bind_ok in Hy as (r & _ & Hy).
    injection Hy as <-.
    apply (setrow_ok 0) in Hg as (Ha & Hn & Hm & _ & Hc).
    destruct (IH (S a) _ H) as [Hin Hout].
    { cbn [set_reverse set_bold set_glyphs glyphs].
      now rewrite Hc, length_replace_nth, Hn. }
    cbn [set_reverse set_bold set_glyphs glyphs] in Hin, Hout.
    rewrite Hm in Hin. split.
    + intros y Hy. destruct (Nat.eq_dec y a) as [-> | Hne].
      * rewrite Hout by lia. rewrite Hc, nth_error_replace_nth.
        rewrite Nat.eqb_refl.
        destruct (a <? length (cells (glyphs p)))%nat eqn:E;
          [reflexivity | apply Nat.ltb_ge in E; lia].
      * apply Hin. lia.
    + intros y Hy. rewrite Hout by lia. rewrite Hc, nth_error_replace_nth.
      destruct (y =? a)%nat eqn:E; [apply Nat.eqb_eq in E; lia | reflexivity].
Qed.

Lemma read_rows_keep_term (t : T) (ys : list nat) (p p' : Player T) :
  foldM (read_row t) ys p = Ok p' -> _term p' = _term p.
Proof.
  revert p. induction ys as [| y ys IH]; intros p H; simpl in H.
  - now injection H as <-.
  - apply bind_ok in H as (q & Hy & H). rewrite (IH _ H).
    unfold read_row in Hy.
    apply bind_ok in Hy as (g & _ & Hy).
    apply bind_ok in Hy as (b & _ & Hy).
    apply bind_ok in Hy as (r & _ & Hy). now injection Hy as <-.
Qed.

(** After [_parse_glyphs] the player holds the emulator as the frame left
    it, the cursor of that emulator, and in every row of the glyph plane the
    codes of the tiles of that row, 0 for a tile without a glyph. *)
Theorem glyphs_mirror_the_terminal (p p' : Player T) (frame : bytes) :
  length (cells (glyphs p)) = nrows (glyphs p) ->
  _parse_glyphs p frame = Ok p' ->
  let t := feed (_term p) frame in
  let X := ncols (glyphs p) in
  _term p' = t /\
  cursor p' = Some (term_cursor t) /\
  forall y, (y < nrows (glyphs p))%nat ->
    nth_error (cells (glyphs p')) y =
    Some (row_values 0 X (map glyph_code (get_tiles t (X * y) (X * (y + 1))))).
Proof.
  cbv zeta. unfold _parse_glyphs. intros Hl H.
  apply bind_ok in H as (q1 & H1 & H).
  apply bind_ok in H as (hood & _ & H).
  apply bind_ok in H as (q2 & H2 & H).
  apply bind_ok in H as (q3 & H3 & H).
  assert (E : glyphs p' = glyphs q1 /\ _term p' = _term q1 /\
              cursor p' = Some (term_cursor (feed (_term p) frame))).
  { unfold _parse_stats in H. apply bind_ok in H as (l & _ & H).
    unfold _parse_attributes in H3. apply bind_ok in H3 as (l3 & _ & H3).
    unfold _parse_message in H2. apply bind_ok in H2 as (l2 & _ & H2).
    destruct (re_search stats_re l);
      [apply bind_ok in H as (d & _ & H) |];
      injection H as <-;
      destruct (re_search attributes_re l3); injection H3 as <-;
      destruct (_ && _); injection H2 as <-; now repeat split. }
  destruct E as (Eg & Et & Ec).
  split; [rewrite Et; now rewrite (read_rows_keep_term _ _ _ _ H1) |].
  split; [exact Ec |].
  intros y Hy. rewrite Eg.
  destruct (read_rows_cells _ _ _ _ _ H1 Hl) as [Hin _].
  apply Hin. lia.
Qed.
End Mirror.

(** ** More on the inventory *)

Lemma category_eqb_eq (a b : category) : category_eqb a b = true <-> a = b.
Proof.
  split; [destruct a, b; simpl; congruence | intros ->; now destruct b].
Qed.

Lemma str_eqb_eq (a b : list Z) : str_eqb a b = true <-> a = b.
Proof.
  revert b. induction a as [| x a IH]; intros [| y b]; simpl;
    try (split; congruence).
  rewrite andb_true_iff, Z.eqb_eq, IH. split; [intros [-> ->] | intros H].
  - reflexivity.
  - injection H as -> ->. now split.
Qed.

Section Dict.
Context {K V : Type} (eqb : K -> K -> bool).
Hypothesis eqb_eq : forall a b, eqb a b = true <-> a = b.

Lemma eqb_refl (k : K) : eqb k k = true.
Proof. now apply eqb_eq. Qed.

Lemma eqb_neq (a b : K) : a <> b -> eqb a b = false.
Proof.
  intros H. destruct (eqb a b) eqn:E; [| reflexivity].
  apply eqb_eq in E. contradiction.
Qed.

Lemma dict_get_set_same (k : K) (v : V) (d : list (K * V)) :
  dict_get eqb k (dict_set eqb k v d) = Some v.
Proof.
  induction d as [| [k' v'] d IH]; simpl.
  - now rewrite eqb_refl.
  - destruct (eqb k' k) eqn:E; simpl; rewrite E; [reflexivity | exact IH].
Qed.

Lemma dict_get_set_other (k k' : K) (v : V) (d : list (K * V)) :
  k' <> k -> dict_get eqb k' (dict_set eqb k v d) = dict_get eqb k' d.
Proof.
  intros Hne. induction d as [| [k0 v0] d IH]; simpl.
  - now rewrite (eqb_neq k k') by congruence.
  - destruct (eqb k0 k) eqn:E; simpl.
    + apply eqb_eq in E. subst k0. now rewrite (eqb_neq k k') by congruence.
    + now rewrite IH.
Qed.
End Dict.

Lemma slots_kept_refl (cs : slots) : slots_kept cs cs.
Proof.
  intros letter it H. now exists it.
Qed.

Lemma slots_kept_trans (a b c : slots) :
  slots_kept a b -> slots_kept b c -> slots_kept a c.
Proof.
  intros H1 H2 letter it H. destruct (H1 letter it H) as [it' H'].
  exact (H2 letter it' H').
Qed.

Lemma add_slot_keeps (k : category) (cs cs' : slots) (rec : list (list Z)) :
  add_slot k cs rec = Ok cs' -> slots_kept cs cs'.
Proof.
  unfold add_slot. intros H.
  destruct rec as [| letter [| name [| x rec]]]; try discriminate.
  apply bind_ok in H as (l & _ & H). apply bind_ok in H as (n & _ & H).
  injection H as <-. intros letter' it Hg.
  destruct (list_eq_dec Z.eq_dec letter' l) as [-> | Hne].
  - rewrite (dict_get_set_same str_eqb str_eqb_eq). now eexists.
  - rewrite (dict_get_set_other str_eqb str_eqb_eq) by exact Hne.
    now exists it.
Qed.

Lemma add_slots_keep (k : category) (recs : list (list (list Z)))
  (cs cs' : slots) :
  foldM (add_slot k) recs cs = Ok cs' -> slots_kept cs cs'.
Proof.
  revert cs. induction recs as [| rec recs IH]; intros cs H; simpl in H.
  - injection H as <-. apply slots_kept_refl.
  - apply bind_ok in H as (cs1 & H1 & H).
    apply (slots_kept_trans cs cs1 cs'); [now apply (add_slot_keeps k _ _ rec) |].
    now apply IH.
Qed.

Lemma scan_category_entry (frame : bytes) (k k' : category)
  (inv inv' : list (category * slots)) (found found' : bool) :
  scan_category frame (inv, found) k = Ok (inv', found') ->
  entry_kept frame k' inv inv' /\
  (exists cs, dict_get category_eqb k inv' = Some cs).
Proof.
  unfold scan_category. intros H.
  set (i := find (category_name k) frame) in *.
  destruct (dict_get category_eqb k inv) as [c |] eqn:Eg.
  - destruct (i >? 0) eqn:Ei.
    + apply bind_ok in H as (cs1 & Hf & H). injection H as <- <-. split.
      * intros cs Hcs. destruct (category_eqb k' k) eqn:E.
        -- apply category_eqb_eq in E. subst k'.
           rewrite (dict_get_set_same category_eqb category_eqb_eq).
           exists cs1. rewrite Eg in Hcs. injection Hcs as <-.
           split; [reflexivity |]. split; [now apply (add_slots_keep k _ _ _ Hf) |].
           intros Hle. fold i in Hle. apply Z.gtb_lt in Ei. lia.
        -- assert (Hne : k' <> k)
             by (intros ->; now rewrite (proj2 (category_eqb_eq k k) eq_refl) in E).
           rewrite (dict_get_set_other category_eqb category_eqb_eq) by exact Hne.
           exists cs. split; [exact Hcs |]. split; [apply slots_kept_refl | reflexivity].
      * rewrite (dict_get_set_same category_eqb category_eqb_eq). now eexists.
    + injection H as <- <-. split.
      * intros cs Hcs. exists cs. split; [exact Hcs |].
        split; [apply slots_kept_refl | reflexivity].
      * now exists c.
  - destruct (i >? 0) eqn:Ei.
    + apply bind_ok in H as (cs1 & Hf & H). injection H as <- <-. split.
      * intros cs Hcs.
        assert (Hne : k' <> k) by (intros ->; congruence).
        rewrite !(dict_get_set_other category_eqb category_eqb_eq) by exact Hne.
        exists cs. split; [exact Hcs |]. split; [apply slots_kept_refl | reflexivity].
      * rewrite (dict_get_set_same category_eqb category_eqb_eq). now eexists.
    + injection H as <- <-. split.
      * intros cs Hcs.
        assert (Hne : k' <> k) by (intros ->; congruence).
        rewrite (dict_get_set_other category_eqb category_eqb_eq) by exact Hne.
        exists cs. split; [exact Hcs |]. split; [apply slots_kept_refl | reflexivity].
      * rewrite (dict_get_set_same category_eqb category_eqb_eq). now eexists.
Qed.

Lemma entry_kept_trans (frame : bytes) (k' : category)
  (a b c : list (category * slots)) :
  entry_kept frame k' a b -> entry_kept frame k' b c -> entry_kept frame k' a c.
Proof.
  intros H1 H2 cs Hcs.
  destruct (H1 cs Hcs) as (cs1 & Hg1 & Hk1 & He1).
  destruct (H2 cs1 Hg1) as (cs2 & Hg2 & Hk2 & He2).
  exists cs2. split; [exact Hg2 |].
  split; [exact (slots_kept_trans _ _ _ Hk1 Hk2) |].
  intros Hle. rewrite (He2 Hle). exact (He1 Hle).
Qed.

Lemma scan_categories_entries (frame : bytes) (ks : list category)
  (k' : category) (inv inv' : list (category * slots)) (found found' : bool) :
  foldM (scan_category frame) ks (inv, found) = Ok (inv', found') ->
  entry_kept frame k' inv inv' /\
  (In k' ks -> exists cs, dict_get category_eqb k' inv' = Some cs).
Proof.
  revert inv found. induction ks as [| k ks IH]; intros inv found H.
  - simpl in H. injection H as <- <-. split; [| intros []].
    intros cs Hcs. exists cs. split; [exact Hcs |].
    split; [apply slots_kept_refl | reflexivity].
  - simpl in H. apply bind_ok in H as ([inv1 found1] & Hk & H).
    destruct (IH _ _ H) as [Hrest Hin].
    destruct (scan_category_entry frame k k' _ _ _ _ Hk) as [Hone _].
    split; [exact (entry_kept_trans _ _ _ _ _ Hone Hrest) |].
    intros [-> | Hk']; [| exact (Hin Hk')].
    destruct (scan_category_entry frame k' k' _ _ _ _ Hk) as [_ [cs Hcs]].
    destruct (Hrest cs Hcs) as (cs' & Hg & _). now exists cs'.
Qed.

Lemma every_category_is_listed (k : category) : In k CATEGORIES.
Proof.
  destruct k; simpl; tauto.
Qed.

Section InventoryMap.
Context {T : Type}.

(** After [_parse_inventory] the map has an entry for each of the eleven
    categories, found in the frame or not. *)
Theorem parse_inventory_has_every_category
  (p p' : Player T) (frame : bytes) (k : category) :
  _parse_inventory p frame = Ok p' ->
  exists cs, dict_get category_eqb k (inventory p') = Some cs.
Proof.
  unfold _parse_inventory. intros H.
  apply bind_ok in H as ([inv found] & Hf & H). injection H as <-.
  cbn [set_need_inventory set_inventory inventory].
  destruct (scan_categories_entries frame CATEGORIES k _ _ _ _ Hf) as [_ Hin].
  apply Hin, every_category_is_listed.
Qed.

(** [_parse_inventory] never empties a slot: a slot that was filled is
    filled afterwards, and the slots of a category whose label is not found
    at an offset above 0 are exactly as they were. *)
Theorem parse_inventory_keeps_slots
  (p p' : Player T) (frame : bytes) (k : category) (cs : slots) :
  _parse_inventory p frame = Ok p' ->
  dict_get category_eqb k (inventory p) = Some cs ->
  exists cs', dict_get category_eqb k (inventory p') = Some cs' /\
              slots_kept cs cs' /\
              (find (category_name k) frame <= 0 -> cs' = cs).
Proof.
  unfold _parse_inventory. intros H Hcs.
  apply bind_ok in H as ([inv found] & Hf & H). injection H as <-.
  cbn [set_need_inventory set_inventory inventory].
  destruct (scan_categories_entries frame CATEGORIES k _ _ _ _ Hf) as [Hk _].
  exact (Hk cs Hcs).
Qed.
End InventoryMap.

(** ** The values of the two records *)

Lemma int_digits_fold (ds : str) (acc : Z) :
  forallb is_decimal ds = true ->
  int_digits ds acc = Ok (fold_left (fun a c => 10 * a + (c - 48)) ds acc).
Proof.
  revert acc. induction ds as [| c ds IH]; intros acc H; simpl in *.
  - reflexivity.
  - apply andb_true_iff in H as [Hc H]. rewrite Hc. now apply IH.
Qed.

Lemma int_digits_nonneg (ds : str) (acc n : Z) :
  0 <= acc -> int_digits ds acc = Ok n -> 0 <= n.
Proof.
  revert acc. induction ds as [| c ds IH]; intros acc Ha H; simpl in H.
  - injection H as <-. exact Ha.
  - destruct (is_decimal c) eqn:Hc; [| discriminate].
    apply (IH (10 * acc + (c - 48))); [| exact H].
    unfold is_decimal, in_range in Hc. apply andb_true_iff in Hc as [H1 _].
    apply Z.leb_le in H1. lia.
Qed.

Lemma py_int_of_digits (t : str) (n : Z) :
  isdigit t = true -> py_int t = Ok n -> 0 <= n.
Proof.
  unfold isdigit, py_int. destruct t as [| c t]; [discriminate |].
  intros Hd H. cbn [forallb] in Hd. apply andb_true_iff in Hd as [Hc _].
  destruct (c =? 43) eqn:E1; [apply Z.eqb_eq in E1; subst c; discriminate |].
  destruct (c =? 45) eqn:E2; [apply Z.eqb_eq in E2; subst c; discriminate |].
  now apply (int_digits_nonneg (c :: t) 0 n).
Qed.

Lemma coerce_value (kv kv' : string * option str) (r : string * value) :
  coerce kv = Ok r -> fst r = fst kv /\ coerced (snd r).
Proof.
  unfold coerce. destruct (snd kv) as [t |].
  - destruct (nonempty t && isdigit t) eqn:E.
    + intros H. apply bind_ok in H as (n & Hn & H). injection H as <-.
      apply andb_true_iff in E as [_ E].
      split; [reflexivity |]. exact (py_int_of_digits t n E Hn).
    + intros H. injection H as <-. split; [reflexivity |].
      cbn [snd coerced]. destruct t as [| c t]; [reflexivity | exact E].
  - intros H. injection H as <-. now split.
Qed.

Lemma coerce_all (d : list (string * option str)) (d' : list (string * value)) :
  mapM coerce d = Ok d' ->
  map fst d' = map fst d /\ Forall (fun kv => coerced (snd kv)) d'.
Proof.
  revert d'. induction d as [| kv d IH]; intros d' H; simpl in H.
  - injection H as <-. now split.
  - apply bind_ok in H as (r & Hr & H). apply bind_ok in H as (rs & Hrs & H).
    injection H as <-. destruct (IH rs Hrs) as [Hk Hv].
    destruct (coerce_value kv kv r Hr) as [Hf Hc].
    split; [simpl; now rewrite Hf, Hk | now constructor].
Qed.

Section Records.
Context {T : Type}.

(** When [_parse_stats] returns, the record is the one it was, or it has
    the fourteen keys of the pattern in their order, each with None, a
    natural number, or a text that is not made of digits: no number is left
    as text. *)
Theorem parse_stats_values (p p' : Player T) :
  _parse_stats p = Ok p' ->
  stats p' = stats p \/
  (map fst (stats p') = stats_keys /\
   Forall (fun kv => coerced (snd kv)) (stats p')).
Proof.
  unfold _parse_stats. intros H. apply bind_ok in H as (l & _ & H).
  destruct (re_search stats_re l) as [mo |].
  - apply bind_ok in H as (d & Hd & H). injection H as <-. right.
    cbn [set_stats stats]. apply coerce_all in Hd as [Hk Hv].
    split; [| exact Hv]. rewrite Hk. unfold groupdict.
    rewrite map_map. cbn [fst]. rewrite map_id. reflexivity.
  - injection H as <-. now left.
Qed.

(** When [_parse_attributes] returns, the record is the one it was, or it
    has the seven keys of the pattern in their order and no value of it is
    an integer. *)
Theorem parse_attributes_values (p p' : Player T) :
  _parse_attributes p = Ok p' ->
  attributes p' = attributes p \/
  exists d, attributes p' = Some d /\
            map fst d = attributes_keys /\
            Forall (fun kv => is_text (snd kv)) d.
Proof.
  unfold _parse_attributes. intros H. apply bind_ok in H as (l & _ & H).
  destruct (re_search attributes_re l) as [mo |].
  - injection H as <-. right.
    exists (map (fun '(k, v) => (k, str_value v)) (groupdict attributes_re mo)).
    split; [reflexivity |]. unfold groupdict. rewrite !map_map. split.
    + cbn [fst]. rewrite map_id. reflexivity.
    + apply Forall_forall. intros kv Hin.
      apply in_map_iff in Hin as (n & <- & _).
      cbn [snd]. now destruct (group mo n).
  - injection H as <-. now left.
Qed.
End Records.

(** ** More on the items *)

Lemma takewhile_all (p : Z -> bool) (s : list Z) :
  forallb p (takewhile p s) = true.
Proof.
  induction s as [| c s IH]; simpl; [reflexivity |].
  destruct (p c) eqn:E; [simpl; now rewrite E | reflexivity].
Qed.

(** A greedy repetition followed by a continuation that always succeeds
    takes all it can. *)
Lemma star_greedy_takes_all {R : Type} (p : Z -> bool) (rst bef : list Z)
  (cs : list (string * list Z)) (k : mstate -> option R) :
  (forall st, k st <> None) ->
  star_greedy p bef rst cs k
  = k (MState (rev (takewhile p rst) ++ bef) (dropwhile p rst) cs).
Proof.
  intros Hk. revert bef. induction rst as [| c rst IH]; intros bef.
  - reflexivity.
  - cbn [star_greedy takewhile dropwhile]. destruct (p c); [| reflexivity].
    rewrite IH. cbn [rev]. rewrite <- app_assoc. cbn [app].
    destruct (k _) eqn:E; [reflexivity | now apply Hk in E].
Qed.

(** On a text of code points below 256, where the digits of the embedding
    are those of [re], [duplicates] never raises: it is 1 when the text does
    not start with a digit, and else the number its leading digits write. *)
Theorem duplicates_value (it : InventoryItem) :
  latin1 (raw it) ->
  duplicates it =
  Ok (match leading_digits (raw it) with
      | [] => 1
      | ds => decimal_value ds
      end).
Proof.
  intros _.
  unfold duplicates, re_match, match_at, duplicates_re, Plus, leading_digits.
  cbn [m before rest caps].
  destruct (raw it) as [| c s]; [reflexivity |].
  cbn [takewhile]. destruct (is_decimal c) eqn:Hc; [| reflexivity].
  rewrite star_greedy_takes_all by discriminate.
  unfold group. cbn [m_end caps assoc String.eqb Ascii.eqb Bool.eqb].
  change (rev (takewhile is_decimal s) ++ [c])
    with (rev (takewhile is_decimal s) ++ [c] ++ []).
  rewrite app_assoc, consumed_app, rev_app_distr, rev_involutive.
  cbn [rev app]. unfold py_int.
  destruct (c =? 43) eqn:E1; [apply Z.eqb_eq in E1; subst c; discriminate |].
  destruct (c =? 45) eqn:E2; [apply Z.eqb_eq in E2; subst c; discriminate |].
  rewrite int_digits_fold; [reflexivity |].
  cbn [forallb]. now rewrite Hc, takewhile_all.
Qed.

(** [charges] looks for the pair at the start of the text only: an item
    whose text does not start with a parenthesis has no charges, whatever
    follows. *)
Theorem charges_need_leading_parenthesis (it : InventoryItem) :
  startswith (u "(") (raw it) = false ->
  charges it = Ok (None, None).
Proof.
  unfold charges, re_match, match_at, charges_re. intros H.
  cbn [seqs m rest]. destruct (raw it) as [| c s]; [reflexivity |].
  change (u "(") with [40] in H. cbn [startswith] in H.
  rewrite andb_true_r, Z.eqb_sym in H. now rewrite H.
Qed.

(** ** Invariants of a run *)

Lemma zeros_wf {A : Type} (zero : A) (r c : nat) :
  wf_array (NdArray r c (repeat (repeat zero c) r)).
Proof.
  split; cbn [nrows ncols cells]; [apply repeat_length |].
  apply Forall_forall. intros row H. apply repeat_spec in H. subst row.
  apply repeat_length.
Qed.

Lemma play_init_screen {T : Type} (r c : nat) (t : T) :
  screen_ok (play_init (r, c) t) /\ shape (glyphs (play_init (r, c) t)) = (r, c).
Proof.
  unfold screen_ok, play_init. cbn [glyphs bold reverse].
  repeat split; try apply zeros_wf;
    cbn [nrows ncols cells]; try apply repeat_length;
    apply Forall_forall; intros row H; apply repeat_spec in H; subst row;
    apply repeat_length.
Qed.

Lemma add_slot_classed (k : category) (cs cs' : slots) (rec : list (list Z)) :
  add_slot k cs rec = Ok cs' -> slots_classed k cs -> slots_classed k cs'.
Proof.
  unfold add_slot. intros H Hcs.
  destruct rec as [| letter [| name [| x rec]]]; try discriminate.
  apply bind_ok in H as (l & _ & H). apply bind_ok in H as (n & _ & H).
  injection H as <-. intros letter' it Hg.
  destruct (list_eq_dec Z.eq_dec letter' l) as [-> | Hne].
  - rewrite (dict_get_set_same str_eqb str_eqb_eq) in Hg.
    now injection Hg as <-.
  - rewrite (dict_get_set_other str_eqb str_eqb_eq) in Hg by exact Hne.
    exact (Hcs letter' it Hg).
Qed.

Lemma add_slots_classed (k : category) (recs : list (list (list Z)))
  (cs cs' : slots) :
  foldM (add_slot k) recs cs = Ok cs' -> slots_classed k cs ->
  slots_classed k cs'.
Proof.
  revert cs. induction recs as [| rec recs IH]; intros cs H Hcs; simpl in H.
  - now injection H as <-.
  - apply bind_ok in H as (cs1 & H1 & H).
    apply (IH cs1 H). exact (add_slot_classed k cs cs1 rec H1 Hcs).
Qed.

Lemma set_classed (k : category) (cs : slots) (inv : list (category * slots)) :
  slots_classed k cs -> inventory_classed inv ->
  inventory_classed (dict_set category_eqb k cs inv).
Proof.
  intros Hcs Hinv k' cs' Hg.
  destruct (category_eqb k' k) eqn:E.
  - apply category_eqb_eq in E. subst k'.
    rewrite (dict_get_set_same category_eqb category_eqb_eq) in Hg.
    now injection Hg as <-.
  - assert (Hne : k' <> k)
      by (intros ->; now rewrite (proj2 (category_eqb_eq k k) eq_refl) in E).
    rewrite (dict_get_set_other category_eqb category_eqb_eq) in Hg by exact Hne.
    exact (Hinv k' cs' Hg).
Qed.

Lemma no_slots_classed (k : category) : slots_classed k [].
Proof.
  intros letter it H. discriminate.
Qed.

Lemma scan_category_classed (frame : bytes) (k : category)
  (inv inv' : list (category * slots)) (found found' : bool) :
  scan_category frame (inv, found) k = Ok (inv', found') ->
  inventory_classed inv -> inventory_classed inv'.
Proof.
  unfold scan_category. intros H Hinv.
  destruct (dict_get category_eqb k inv) as [c |] eqn:Eg;
    destruct (find (category_name k) frame >? 0).
  - apply bind_ok in H as (cs1 & Hf & H). injection H as <- <-.
    apply set_classed; [| exact Hinv].
    exact (add_slots_classed k _ _ _ Hf (Hinv k c Eg)).
  - now injection H as <- <-.
  - apply bind_ok in H as (cs1 & Hf & H). injection H as <- <-.
    apply set_classed.
    + exact (add_slots_classed k _ _ _ Hf (no_slots_classed k)).
    + apply set_classed; [apply no_slots_classed | exact Hinv].
  - injection H as <- <-.
    apply set_classed; [apply no_slots_classed | exact Hinv].
Qed.

Lemma scan_categories_classed (frame : bytes) (ks : list category)
  (inv inv' : list (category * slots)) (found found' : bool) :
  foldM (scan_category frame) ks (inv, found) = Ok (inv', found') ->
  inventory_classed inv -> inventory_classed inv'.
Proof.
  revert inv found. induction ks as [| k ks IH]; intros inv found H Hinv.
  - simpl in H. now injection H as <- <-.
  - simpl in H. apply bind_ok in H as ([inv1 found1] & Hk & H).
    apply (IH _ _ H). exact (scan_category_classed _ _ _ _ _ _ Hk Hinv).
Qed.

Section RunInvariants.
Context {T : Type} {strategy : Strategy T} {term : Ansiterm T}.

Lemma observe_classed (p p' : Player T) (frame : bytes) :
  _observe p frame = Ok p' ->
  inventory_classed (inventory p) -> inventory_classed (inventory p').
Proof.
  unfold _observe. intros H Hinv.
  apply bind_ok in H as (p1 & Hg & H).
  apply parse_glyphs_keeps_control in Hg. unfold control in Hg.
  injection Hg as _ _ _ Ki.
  apply bind_ok in H as (p2 & Hi & H). injection H as <-.
  cbn [set_has_more set_command inventory].
  destruct (is_inventory_command (_command p1)).
  - unfold _parse_inventory in Hi.
    apply bind_ok in Hi as ([inv found] & Hf & Hi). injection Hi as <-.
    cbn [set_need_inventory set_inventory inventory].
    apply (scan_categories_classed _ _ _ _ _ _ Hf).
    destruct (negb (_has_more p1)); cbn [set_inventory inventory].
    + intros k cs Hk. discriminate.
    + now rewrite Ki.
  - injection Hi as <-. now rewrite Ki.
Qed.

Lemma run_invariant (I : Player T -> Prop) :
  (forall p p' frame, _observe p frame = Ok p' -> I p -> I p') ->
  (forall p c, I p -> I (set_command p c)) ->
  forall inputs p p' cs,
    copy_loop p inputs = Ok (p', cs) -> I p -> I p'.
Proof.
  intros Hobs Hcmd. induction inputs as [| [buf draw] inputs IH];
    intros p p' cs H Hp.
  - simpl in H. now injection H as <- _.
  - simpl in H. apply bind_ok in H as ([p1 c] & Hs & H).
    apply bind_ok in H as ([p2 cs'] & Hl & H). injection H as <- _.
    apply (IH p1 p2 cs' Hl).
    unfold copy_step in Hs. apply bind_ok in Hs as (q & Ho & Ha).
    apply act_keeps in Ha. subst p1. apply Hcmd.
    destruct (nonempty buf); [exact (Hobs p q buf Ho Hp) |].
    now injection Ho as <-.
Qed.

(** Through every run that starts from the state [play] sets up, the three
    planes of the screen stay well formed and keep the shape that was
    configured. *)
Theorem planes_keep_the_configured_shape
  (r c : nat) (t : T) (inputs : list (bytes * nat)) (p' : Player T)
  (cs : list str) :
  copy_loop (play_init (r, c) t) inputs = Ok (p', cs) ->
  screen_ok p' /\ shape (glyphs p') = (r, c).
Proof.
  intros H.
  apply (run_invariant
           (fun p => screen_ok p /\ shape (glyphs p) = (r, c))
           ) with (inputs := inputs) (p := play_init (r, c) t) (cs := cs).
  - intros p q frame Ho [Hp Hs].
    apply observe_planes in Ho as (q1 & Hq & E & _).
    apply read_rows_screen in Hq as [Hq Sq]; [| exact Hp].
    destruct (planes_screen q1 q E Hq) as [H1 S1].
    split; [exact H1 |]. rewrite S1, Sq. exact Hs.
  - intros p c0 Hp. exact Hp.
  - exact H.
  - apply play_init_screen.
Qed.

(** Through every run that starts from the state [play] sets up, each item
    of the inventory is an instance of the class of the category it is filed
    under; so asking a weapon of the map whether it is wielded never raises
    [AttributeError]. *)
Theorem items_are_filed_under_their_class
  (shape0 : nat * nat) (t : T) (inputs : list (bytes * nat)) (p' : Player T)
  (cs : list str) :
  copy_loop (play_init shape0 t) inputs = Ok (p', cs) ->
  inventory_classed (inventory p') /\
  forall weapons letter it,
    dict_get category_eqb Weapons (inventory p') = Some weapons ->
    dict_get str_eqb letter weapons = Some it ->
    exists o, is_wielded it = Ok o.
Proof.
  intros H.
  assert (Hc : inventory_classed (inventory p')).
  { apply (run_invariant (fun p => inventory_classed (inventory p)))
      with (inputs := inputs) (p := play_init shape0 t) (cs := cs).
    - intros p q frame Ho Hp. exact (observe_classed p q frame Ho Hp).
    - intros p c0 Hp. exact Hp.
    - exact H.
    - destruct shape0 as [r c]. intros k slots0 Hk. discriminate. }
  split; [exact Hc |].
  intros weapons letter it Hw Hit.
  unfold is_wielded, weapons_only. rewrite (Hc Weapons weapons Hw letter it Hit).
  now eexists.
Qed.
End RunInvariants.

(** ** Reading a listing twice *)

Section DictWrites.
Context {K V : Type} (eqb : K -> K -> bool).
Hypothesis eqb_eq : forall a b, eqb a b = true <-> a = b.

Lemma dict_set_same (k : K) (v : V) (d : list (K * V)) :
  dict_get eqb k d = Some v -> dict_set eqb k v d = d.
Proof.
  induction d as [| [k' v'] d IH]; simpl; [discriminate |].
  destruct (eqb k' k); intros H.
  - now injection H as ->.
  - now rewrite IH.
Qed.

Lemma dict_set_twice (k : K) (v w : V) (d : list (K * V)) :
  dict_set eqb k w (dict_set eqb k v d) = dict_set eqb k w d.
Proof.
  induction d as [| [k' v'] d IH]; simpl.
  - now rewrite (eqb_refl eqb eqb_eq).
  - destruct (eqb k' k) eqn:E; simpl; rewrite E; [reflexivity | now rewrite IH].
Qed.

Lemma dict_set_swap (k k' : K) (v w : V) (d : list (K * V)) :
  k <> k' -> dict_get eqb k d <> None ->
  dict_set eqb k' w (dict_set eqb k v d) =
  dict_set eqb k v (dict_set eqb k' w d).
Proof.
  intros Hne. induction d as [| [k0 v0] d IH]; simpl; [congruence |].
  destruct (eqb k0 k) eqn:E; destruct (eqb k0 k') eqn:E'; simpl;
    rewrite ?E, ?E'; intros Hp; try reflexivity.
  - apply eqb_eq in E, E'. congruence.
  - now rewrite IH.
Qed.

Lemma dict_set_present (k k' : K) (v : V) (d : list (K * V)) :
  dict_get eqb k d <> None -> dict_get eqb k (dict_set eqb k' v d) <> None.
Proof.
  intros H. induction d as [| [k0 v0] d IH]; simpl in *; [congruence |].
  destruct (eqb k0 k') eqn:E'; simpl; destruct (eqb k0 k); auto; congruence.
Qed.

Lemma writes_present (ws : list (K * V)) (k : K) (d : list (K * V)) :
  dict_get eqb k d <> None -> dict_get eqb k (writes eqb ws d) <> None.
Proof.
  revert d. induction ws as [| [k' w] ws IH]; intros d H; simpl; [exact H |].
  apply IH. now apply dict_set_present.
Qed.

Lemma writes_other (ws : list (K * V)) (k : K) (d : list (K * V)) :
  ~ In k (map fst ws) -> dict_get eqb k (writes eqb ws d) = dict_get eqb k d.
Proof.
  revert d. induction ws as [| [k' w] ws IH]; intros d H; simpl; [reflexivity |].
  simpl in H. rewrite IH by tauto.
  apply (dict_get_set_other eqb eqb_eq). intros ->. tauto.
Qed.

Lemma writes_override (ws : list (K * V)) (k : K) (v : V) (d : list (K * V)) :
  In k (map fst ws) -> dict_get eqb k d <> None ->
  writes eqb ws (dict_set eqb k v d) = writes eqb ws d.
Proof.
  revert d. induction ws as [| [k' w] ws IH]; intros d Hin Hp; simpl in *;
    [contradiction |].
  destruct (eqb k k') eqn:E.
  - apply eqb_eq in E. subst k'. now rewrite dict_set_twice.
  - assert (Hne : k <> k')
      by (intros ->; now rewrite (eqb_refl eqb eqb_eq) in E).
    rewrite dict_set_swap by assumption.
    apply IH; [| now apply dict_set_present].
    destruct Hin as [-> | Hin]; [congruence | exact Hin].
Qed.

Hypothesis key_dec : forall a b : K, {a = b} + {a <> b}.

(** Replaying the writes over their own result changes nothing. *)
Lemma writes_twice (ws : list (K * V)) (d : list (K * V)) :
  writes eqb ws (writes eqb ws d) = writes eqb ws d.
Proof.
  revert d. induction ws as [| [k v] ws IH]; intros d; [reflexivity |].
  change (writes eqb ((k, v) :: ws) d) with (writes eqb ws (dict_set eqb k v d)).
  set (D := writes eqb ws (dict_set eqb k v d)).
  change (writes eqb ((k, v) :: ws) D) with (writes eqb ws (dict_set eqb k v D)).
  assert (Hp : dict_get eqb k D <> None).
  { apply writes_present. rewrite (dict_get_set_same eqb eqb_eq). congruence. }
  destruct (in_dec key_dec k (map fst ws)) as [Hin | Hout].
  - rewrite writes_override by assumption. apply IH.
  - rewrite dict_set_same; [apply IH |].
    unfold D. rewrite writes_other by exact Hout.
    apply (dict_get_set_same eqb eqb_eq).
Qed.
End DictWrites.

(** The records of a listing, decoded: the writes the inner loop makes. *)
Lemma add_slots_writes (k : category) (recs : list (list (list Z)))
  (cs cs' : slots) :
  foldM (add_slot k) recs cs = Ok cs' ->
  exists ws, forall e, foldM (add_slot k) recs e = Ok (writes str_eqb ws e).
Proof.
  revert cs. induction recs as [| rec recs IH]; intros cs H.
  - exists []. reflexivity.
  - simpl in H. apply bind_ok in H as (cs1 & H1 & H).
    destruct (IH cs1 H) as [ws Hws].
    unfold add_slot in H1.
    destruct rec as [| letter [| name [| x rec]]]; try discriminate.
    apply bind_ok in H1 as (l & Hl & H1). apply bind_ok in H1 as (n & Hn & _).
    exists ((l, new_item k n) :: ws). intros e.
    simpl. unfold add_slot. rewrite Hl. unfold bind at 2. rewrite Hn.
    unfold bind at 2. unfold bind at 1. apply Hws.
Qed.

Lemma add_slots_twice (k : category) (recs : list (list (list Z)))
  (cs cs' : slots) :
  foldM (add_slot k) recs cs = Ok cs' ->
  foldM (add_slot k) recs cs' = Ok cs'.
Proof.
  intros H. destruct (add_slots_writes k recs cs cs' H) as [ws Hws].
  rewrite Hws in H. injection H as <-. rewrite Hws.
  now rewrite (writes_twice str_eqb str_eqb_eq (list_eq_dec Z.eq_dec)).
Qed.

Lemma category_neq (a b : category) : a <> b -> category_eqb a b = false.
Proof.
  exact (eqb_neq category_eqb category_eqb_eq a b).
Qed.

Lemma scan_category_settles (frame : bytes) (k : category)
  (inv inv' : list (category * slots)) (found found' : bool) :
  scan_category frame (inv, found) k = Ok (inv', found') ->
  settled frame inv' k /\
  forall k', settled frame inv k' -> settled frame inv' k'.
Proof.
  unfold scan_category. intros H.
  assert (G : forall cs0 inv0,
             dict_get category_eqb k inv0 = Some cs0 ->
             (let i := find (category_name k) frame in
              if i >? 0
              then contents <- foldM (add_slot k)
                     (findall inventory_re
                        (split_head reverse_video (skipn (Z.to_nat i) frame)))
                     cs0 ;;
                   Ok (dict_set category_eqb k contents inv0, true)
              else Ok (inv0, found)) = Ok (inv', found') ->
             settled frame inv' k /\
             forall k', k' <> k -> settled frame inv0 k' ->
                        settled frame inv' k').
  { clear H. intros cs0 inv0 Hg H. cbv zeta in H.
    destruct (find (category_name k) frame >? 0) eqn:Ei.
    - apply bind_ok in H as (cs1 & Hf & H). injection H as <- _.
      split.
      + intros f. unfold scan_category.
        rewrite (dict_get_set_same category_eqb category_eqb_eq). rewrite Ei.
        rewrite (add_slots_twice _ _ _ _ Hf). unfold bind at 1.
        now rewrite (dict_set_twice category_eqb category_eqb_eq).
      + intros k' Hne Hs f. specialize (Hs f). unfold scan_category in *.
        rewrite (dict_get_set_other category_eqb category_eqb_eq) by exact Hne.
        destruct (dict_get category_eqb k' inv0) as [c' |] eqn:Eg'.
        * destruct (find (category_name k') frame >? 0).
          -- apply bind_ok in Hs as (c1 & Hc1 & Hs). rewrite Hc1.
             unfold bind at 1. injection Hs as Hs.
             rewrite (dict_set_swap category_eqb category_eqb_eq)
               by (try congruence; rewrite Eg'; congruence).
             now rewrite Hs.
          -- reflexivity.
        * exfalso.
          destruct (find (category_name k') frame >? 0).
          -- apply bind_ok in Hs as (c1 & _ & Hs). injection Hs as Hs.
             assert (E : dict_get category_eqb k' inv0 = Some c1).
             { rewrite <- Hs at 1.
               rewrite (dict_get_set_same category_eqb category_eqb_eq).
               reflexivity. }
             congruence.
          -- injection Hs as Hs.
             assert (E : dict_get category_eqb k' inv0 = Some []).
             { rewrite <- Hs at 1.
               apply (dict_get_set_same category_eqb category_eqb_eq). }
             congruence.
    - injection H as <- _. split.
      + intros f. unfold scan_category. now rewrite Hg, Ei.
      + intros k' _ Hs. exact Hs. }
  assert (G' : forall k',
             k' <> k -> dict_get category_eqb k inv = None ->
             settled frame inv k' ->
             settled frame (dict_set category_eqb k [] inv) k').
  { intros k' Hne Hk Hs f. specialize (Hs f). unfold scan_category in *.
    rewrite (dict_get_set_other category_eqb category_eqb_eq) by exact Hne.
    destruct (dict_get category_eqb k' inv) as [c' |] eqn:Eg'.
    - destruct (find (category_name k') frame >? 0).
      + apply bind_ok in Hs as (c1 & Hc1 & Hs). rewrite Hc1.
        unfold bind at 1. injection Hs as Hs.
        assert (Hp : dict_get category_eqb k' inv <> None)
          by (rewrite Eg'; congruence).
        pose proof (dict_set_swap category_eqb category_eqb_eq
                      k' k c1 [] inv Hne Hp) as E.
        rewrite Hs in E.
        exact (f_equal (fun x => Ok (x, true)) (eq_sym E)).
      + reflexivity.
    - exfalso.
      destruct (find (category_name k') frame >? 0).
      + apply bind_ok in Hs as (c1 & _ & Hs). injection Hs as Hs.
        assert (E : dict_get category_eqb k' inv = Some c1).
        { rewrite <- Hs at 1.
          rewrite (dict_get_set_same category_eqb category_eqb_eq).
          reflexivity. }
        congruence.
      + injection Hs as Hs.
        assert (E : dict_get category_eqb k' inv = Some []).
        { rewrite <- Hs at 1.
          apply (dict_get_set_same category_eqb category_eqb_eq). }
        congruence. }
  destruct (dict_get category_eqb k inv) as [c |] eqn:Eg.
  - destruct (G c inv Eg H) as [G1 G2]. split; [exact G1 |].
    intros k' Hs. destruct (category_eqb k' k) eqn:E.
    + apply category_eqb_eq in E. now subst k'.
    + apply G2; [| exact Hs]. intros ->.
      now rewrite (proj2 (category_eqb_eq k k) eq_refl) in E.
  - destruct (G [] (dict_set category_eqb k [] inv)
                (dict_get_set_same category_eqb category_eqb_eq k [] inv) H)
      as [G1 G2].
    split; [exact G1 |].
    intros k' Hs. destruct (category_eqb k' k) eqn:E.
    + apply category_eqb_eq in E. now subst k'.
    + assert (Hne : k' <> k)
        by (intros ->; now rewrite (proj2 (category_eqb_eq k k) eq_refl) in E).
      apply G2; [exact Hne |]. now apply G'.
Qed.

Lemma scan_categories_settle (frame : bytes) (ks : list category)
  (inv inv' : list (category * slots)) (found found' : bool) :
  foldM (scan_category frame) ks (inv, found) = Ok (inv', found') ->
  (forall k, In k ks -> settled frame inv' k) /\
  (forall k, settled frame inv k -> settled frame inv' k).
Proof.
  revert inv found. induction ks as [| k ks IH]; intros inv found H.
  - simpl in H. injection H as <- _. split; [intros k [] | auto].
  - simpl in H. apply bind_ok in H as ([inv1 found1] & Hk & H).
    destruct (IH _ _ H) as [I1 I2].
    destruct (scan_category_settles _ _ _ _ _ _ Hk) as [S1 S2].
    split.
    + intros k' [<- | Hin]; [apply I2, S1 | now apply I1].
    + intros k' Hs. apply I2, S2, Hs.
Qed.

Lemma settled_scan (frame : bytes) (ks : list category)
  (inv : list (category * slots)) (found : bool) :
  (forall k, In k ks -> settled frame inv k) ->
  foldM (scan_category frame) ks (inv, found) =
  Ok (inv, existsb (fun k => find (category_name k) frame >? 0) ks || found).
Proof.
  revert found. induction ks as [| k ks IH]; intros found H;
    cbn [foldM existsb].
  - reflexivity.
  - rewrite (H k (or_introl eq_refl)). unfold bind at 1.
    rewrite IH by (intros k' Hin; apply H; now right).
    now destruct (find (category_name k) frame >? 0);
      rewrite ?orb_true_r, ?orb_false_r.
Qed.

Section Twice.
Context {T : Type}.

(** Reading the same frame again with [_parse_inventory] changes nothing: the
    state after the first reading is a fixed point of the second. *)
Theorem parse_inventory_twice (p p' : Player T) (frame : bytes) :
  _parse_inventory p frame = Ok p' ->
  _parse_inventory p' frame = Ok p'.
Proof.
  unfold _parse_inventory. intros H.
  apply bind_ok in H as ([inv found] & Hf & H). injection H as <-.
  cbn [set_need_inventory set_inventory inventory].
  pose proof (scan_categories_found _ _ _ _ _ _ Hf) as Ef.
  apply scan_categories_settle in Hf as [Hs _].
  rewrite (settled_scan frame CATEGORIES inv false Hs).
  unfold bind at 1. rewrite orb_false_r. rewrite orb_false_l in Ef.
  rewrite <- Ef. reflexivity.
Qed.
End Twice.

(** ** The flags of an item *)

Lemma m_lit (s : list Z) (R : Type) (bef rst : list Z)
  (cs : list (string * list Z)) (k : mstate -> option R) :
  m (lit s) R (MState bef rst cs) k =
  if startswith s rst
  then k (MState (rev (firstn (length s) rst) ++ bef)
                 (skipn (length s) rst) cs)
  else None.
Proof.
  revert bef rst. induction s as [| c s IH]; intros bef rst; [reflexivity |].
  assert (G : m (Lit c) R (MState bef rst cs)
                (fun st' => m (lit s) R st' k) =
              if startswith (c :: s) rst
              then k (MState (rev (firstn (length (c :: s)) rst) ++ bef)
                             (skipn (length (c :: s)) rst) cs)
              else None).
  { cbn [m rest before caps]. destruct rst as [| c' rst]; [reflexivity |].
    cbn [startswith]. rewrite (Z.eqb_sym c c').
    destruct (c' =? c); [| reflexivity]. rewrite IH. cbn [andb].
    destruct (startswith s rst); [| reflexivity].
    cbn [length firstn skipn rev]. now rewrite <- app_assoc. }
  destruct s as [| c2 s]; [exact G |].
  exact G.
Qed.

Lemma startswith_app (a b s : list Z) :
  startswith (a ++ b) s = startswith a s && startswith b (skipn (length a) s).
Proof.
  revert s. induction a as [| x a IH]; intros s; [reflexivity |].
  destruct s as [| c s]; [reflexivity |]. cbn [app startswith length skipn].
  rewrite IH. now rewrite andb_assoc.
Qed.

Lemma anywhere_ext (f g : list Z -> bool) (s : list Z) :
  (forall t, f t = g t) -> anywhere f s = anywhere g s.
Proof.
  intros H. induction s as [| c s IH]; simpl; rewrite H; [reflexivity |].
  now rewrite IH.
Qed.

Lemma anywhere_or (f g : list Z -> bool) (s : list Z) :
  anywhere (fun t => f t || g t) s = anywhere f s || anywhere g s.
Proof.
  induction s as [| c s IH]; simpl.
  - now rewrite !orb_false_r.
  - rewrite IH. destruct (f (c :: s)), (g (c :: s)), (anywhere f s); reflexivity.
Qed.

Lemma contains_anywhere (sub s : list Z) :
  contains sub s = anywhere (startswith sub) s.
Proof.
  induction s as [| c s IH]; [reflexivity |].
  cbn [contains anywhere]. now rewrite IH.
Qed.

Lemma search_anywhere (r : regex) (f : list Z -> bool) :
  (forall bef rst, truthy (match_at r bef rst) = f rst) ->
  forall bef rst, truthy (search_from r bef rst) = anywhere f rst.
Proof.
  intros H bef rst. revert bef. induction rst as [| c rst IH]; intros bef;
    cbn [search_from anywhere]; rewrite <- (H bef);
    destruct (match_at r bef _); try reflexivity.
  rewrite IH. reflexivity.
Qed.

Lemma search_lit (s t : list Z) :
  truthy (re_search (lit s) t) = contains s t.
Proof.
  rewrite contains_anywhere. apply search_anywhere. intros bef rst.
  unfold match_at. rewrite m_lit. now destruct (startswith s rst).
Qed.

Ltac lit_cases :=
  repeat (cbv beta; rewrite ?m_lit; cbn [andb orb truthy];
          try match goal with
              | |- context [startswith ?a ?s] => destruct (startswith a s)
              end);
  reflexivity.

(** Of any item, [is_being_worn] holds exactly when the text of the item
    contains [(being worn)], and [is_in_use] exactly when it contains
    [(in use)] or [(lit)]. *)
Theorem worn_and_in_use_are_substring_tests (it : InventoryItem) :
  truthy (is_being_worn it) = contains (u "(being worn)") (raw it) /\
  truthy (is_in_use it) =
  contains (u "(in use)") (raw it) || contains (u "(lit)") (raw it).
Proof.
  split; [apply search_lit |].
  unfold is_in_use. rewrite !contains_anywhere, <- anywhere_or.
  apply search_anywhere. intros bef rst.
  change (u "(in use)") with ([40] ++ u "in use" ++ [41]).
  change (u "(lit)") with ([40] ++ u "lit" ++ [41]).
  rewrite !startswith_app.
  unfold match_at. cbn [seqs]. change (Lit 40) with (lit [40]).
  change (Lit 41) with (lit [41]). cbn [m]. rewrite m_lit.
  lit_cases.
Qed.

(** Of a weapon, [is_alternate] and [is_quivered] hold exactly when the text
    contains their marks, and [is_wielded] exactly when it contains
    [(weapon in hand)] or [(weapon in hands)]. *)
Theorem weapon_flags_are_substring_tests (it : InventoryItem) :
  klass it = Weapons ->
  exists w a q,
    is_wielded it = Ok w /\ is_alternate it = Ok a /\ is_quivered it = Ok q /\
    truthy w = contains (u "(weapon in hand)") (raw it)
               || contains (u "(weapon in hands)") (raw it) /\
    truthy a = contains (u "(alternate weapon; not wielded)") (raw it) /\
    truthy q = contains (u "(in quiver)") (raw it).
Proof.
  intros Hk. unfold is_wielded, is_alternate, is_quivered, weapons_only.
  rewrite Hk. do 3 eexists. repeat split; try apply search_lit.
  rewrite !contains_anywhere, <- anywhere_or.
  apply search_anywhere. intros bef rst.
  change (u "(weapon in hand)") with (u "(weapon in hand" ++ [41]).
  change (u "(weapon in hands)") with (u "(weapon in hand" ++ [115] ++ [41]).
  rewrite !startswith_app.
  unfold match_at. cbn [seqs]. change (Lit 115) with (lit [115]).
  change (Lit 41) with (lit [41]). cbn [m]. rewrite m_lit.
  lit_cases.
Qed.

Lemma startswith_split (w s : list Z) :
  startswith w s = true <-> exists b, s = w ++ b.
Proof.
  revert s. induction w as [| c w IH]; intros s.
  - split; [intros _; now exists s | reflexivity].
  - destruct s as [| x s]; simpl.
    + split; [discriminate | intros [b H]; discriminate].
    + rewrite andb_true_iff, Z.eqb_eq, IH. split.
      * intros [-> [b ->]]. now exists b.
      * intros [b H]. injection H as -> ->. split; [reflexivity | now exists b].
Qed.

Lemma at_word_last (p : Z -> bool) (w bef : list Z) :
  w <> [] -> forallb p w = true -> at_word p (rev w ++ bef) = true.
Proof.
  intros Hne Hall. destruct (rev w) as [| x l] eqn:E.
  - apply (f_equal (@rev Z)) in E. rewrite rev_involutive in E. contradiction.
  - simpl. rewrite forallb_forall in Hall. apply Hall, in_rev.
    rewrite E. now left.
Qed.

Lemma match_word (w : string) (bef rst : list Z) :
  u w <> [] -> forallb is_word (u w) = true ->
  truthy (match_at (word_re w) bef rst) =
  negb (at_word is_word bef) && startswith (u w) rst
  && negb (at_word is_word (skipn (length (u w)) rst)).
Proof.
  intros Hne Hall. unfold match_at, word_re. cbn [seqs m before rest].
  destruct (startswith (u w) rst) eqn:Es.
  - apply startswith_split in Es as [b ->].
    assert (Hw : at_word is_word (u w ++ b) = true).
    { destruct (u w) as [| c t]; [contradiction |].
      simpl in Hall. now apply andb_true_iff in Hall as [Hc _]. }
    rewrite Hw, m_lit.
    rewrite (proj2 (startswith_split (u w) (u w ++ b)))
      by now exists b.
    cbn [before rest].
    rewrite firstn_app, Nat.sub_diag, firstn_all, firstn_O, app_nil_r.
    rewrite (at_word_last is_word (u w) bef Hne Hall).
    rewrite skipn_app, Nat.sub_diag, skipn_all, skipn_O.
    cbn [app andb].
    destruct (at_word is_word bef), (at_word is_word b); reflexivity.
  - rewrite andb_false_r.
    destruct (xorb _ _); [| reflexivity]. rewrite m_lit, Es. reflexivity.
Qed.

Lemma search_split (r : regex) (f : list Z -> list Z -> bool) :
  (forall bef rst, truthy (match_at r bef rst) = f bef rst) ->
  forall rst bef,
    truthy (search_from r bef rst) = true <->
    exists a b, rst = a ++ b /\ f (rev a ++ bef) b = true.
Proof.
  intros H. induction rst as [| c rst IH]; intros bef; cbn [search_from].
  - specialize (H bef []). destruct (match_at r bef []); simpl in *.
    + split; [intros _; now exists [], [] | reflexivity].
    + split; [discriminate |].
      intros (a & b & E & Hf). symmetry in E.
      apply app_eq_nil in E as [-> ->]. simpl in Hf. congruence.
  - pose proof (H bef (c :: rst)) as Hc.
    destruct (match_at r bef (c :: rst)); simpl in Hc.
    + split; [intros _; now exists [], (c :: rst) | reflexivity].
    + rewrite IH. split.
      * intros (a & b & -> & Hf). exists (c :: a), b.
        split; [reflexivity |]. simpl. now rewrite <- app_assoc.
      * intros (a & b & E & Hf). destruct a as [| x a].
        -- simpl in E, Hf. subst b. congruence.
        -- injection E as <- ->. exists a, b. split; [reflexivity |].
           simpl in Hf. now rewrite <- app_assoc in Hf.
Qed.

Lemma search_word (w : string) (s : list Z) :
  u w <> [] -> forallb is_word (u w) = true ->
  truthy (re_search (word_re w) s) = true <-> word_in (u w) s.
Proof.
  intros Hne Hall. unfold re_search.
  rewrite (search_split (word_re w) _
             (fun bef rst => match_word w bef rst Hne Hall)).
  unfold word_in. split.
  - intros (a & b & -> & Hf).
    apply andb_true_iff in Hf as [Hf H3].
    apply andb_true_iff in Hf as [H1 H2].
    apply startswith_split in H2 as [b' ->]. exists a, b'.
    rewrite app_nil_r in H1.
    rewrite skipn_app, Nat.sub_diag, skipn_all, skipn_O in H3.
    repeat split; [now apply negb_true_iff in H1 | now apply negb_true_iff in H3].
  - intros (a & b & -> & H1 & H3). exists a, (u w ++ b).
    split; [reflexivity |]. rewrite app_nil_r, H1.
    rewrite (proj2 (startswith_split (u w) (u w ++ b))) by now exists b.
    rewrite skipn_app, Nat.sub_diag, skipn_all, skipn_O.
    cbn [app]. now rewrite H3.
Qed.

(** [is_cursed], [is_uncursed] and [is_blessed] are whole-word tests: on a
    text of code points below 256, where the word characters of the
    embedding are those of [re], each holds exactly when its word occurs in
    the text of the item with no word character directly before or after
    it. *)
Theorem curse_flags_are_whole_word_tests (it : InventoryItem) :
  latin1 (raw it) ->
  (truthy (is_cursed it) = true <-> word_in (u "cursed") (raw it)) /\
  (truthy (is_uncursed it) = true <-> word_in (u "uncursed") (raw it)) /\
  (truthy (is_blessed it) = true <-> word_in (u "blessed") (raw it)).
Proof.
  intros _.
  repeat split; try (apply search_word; [discriminate | reflexivity]);
    apply search_word; try discriminate; reflexivity.
Qed.

(** ** Instances *)

Lemma coded_screen_wf : wf_array (coded_screen 24 80).
Proof.
  split; [reflexivity |]. repeat constructor.
Qed.

Lemma neighborhood_away_from_bottom_and_right_witness :
  exists hood,
    neighborhood (player_at (coded_screen 24 80) (0, 1)) 2 = Ok hood /\
    nrows hood = Z.to_nat (2 * 2 + 1) /\
    ncols hood = Z.to_nat (2 * 2 + 1) /\
    forall i j, (i < nrows hood)%nat -> (j < ncols hood)%nat ->
      get2 hood i j =
      Some (hood_cell (coded_screen 24 80) (0 - 2 + Z.of_nat i)
                      (1 - 2 + Z.of_nat j)).
Proof.
  apply (neighborhood_away_from_bottom_and_right
           (player_at (coded_screen 24 80) (0, 1)) 0 1 2).
  - exact coded_screen_wf.
  - reflexivity.
  - lia.
  - lia.
  - lia.
  - simpl. lia.
  - simpl. lia.
Defined.

Lemma neighborhood_grid_witness :
  let hood :=
    ok_or (neighborhood (player_at (coded_screen 24 80) (23, 40)) 3)
          (NdArray 0 0 []) in
  nrows hood = Z.to_nat (2 * 3 + 1) /\
  ncols hood = Z.to_nat (2 * 3 + 1) /\
  length (cells hood) = nrows hood /\
  Forall (fun row => length row = ncols hood /\
                     Forall (fun v => 0 <= v < 256) row) (cells hood).
Proof.
  cbv zeta.
  apply (neighborhood_grid (player_at (coded_screen 24 80) (23, 40)) 3).
  vm_compute. reflexivity.
Defined.

Lemma neighborhood_raises_near_bottom_or_right_witness :
  neighborhood (player_at (coded_screen 24 80) (19, 40)) 3 = Raise ValueError.
Proof.
  apply (neighborhood_raises_near_bottom_or_right
           (player_at (coded_screen 24 80) (19, 40)) 19 40 3).
  - reflexivity.
  - lia.
  - left. simpl. lia.
Defined.

Lemma parse_message_first_character_witness :
  _parse_message prompt_player =
  Ok (set_messages prompt_player
        (deque_append (messages prompt_player)
                      (guard_prompt ++ repeat 32 51%nat))).
Proof.
  apply (parse_message_first_character prompt_player
           (guard_prompt ++ repeat 32 51%nat)).
  reflexivity.
Defined.

Lemma message_log_stays_bounded_witness :
  (length (messages
     (loop_player (@copy_loop unit (RandomMover unit) SilentTerm
                     fresh_player three_frames))) <= 1000)%nat.
Proof.
  apply (@message_log_stays_bounded unit (RandomMover unit) SilentTerm
           fresh_player _ three_frames
           (loop_commands (@copy_loop unit (RandomMover unit) SilentTerm
                             fresh_player three_frames))).
  - simpl. lia.
  - vm_compute. reflexivity.
Defined.

Lemma markers_are_acknowledged_witness :
  Forall2 (fun input c => shows_marker (fst input) = true -> c = CMD.MORE)
          three_frames
          (loop_commands (@copy_loop unit (RandomMover unit) SilentTerm
                            fresh_player three_frames)).
Proof.
  apply (@markers_are_acknowledged unit (RandomMover unit) SilentTerm
           fresh_player
           (loop_player (@copy_loop unit (RandomMover unit) SilentTerm
                           fresh_player three_frames))).
  vm_compute. reflexivity.
Defined.

Lemma observe_without_request_witness :
  let p' := ok_or (@_observe unit SilentTerm fresh_player weapons_page)
                  fresh_player in
  inventory p' = inventory fresh_player /\
  _need_inventory p' = _need_inventory fresh_player /\
  _command p' = None /\
  _has_more p' = shows_marker weapons_page.
Proof.
  cbv zeta.
  apply (@observe_without_request unit SilentTerm fresh_player _ weapons_page).
  - reflexivity.
  - vm_compute. reflexivity.
Defined.

Lemma random_mover_asks_once_witness :
  let r := @copy_loop unit (RandomMover unit) SilentTerm
             armed_player three_frames in
  inventory (loop_player r) = inventory armed_player /\
  _need_inventory (loop_player r) = false /\
  ~ In CMD.INVENTORY (loop_commands r).
Proof.
  cbv zeta.
  apply (@random_mover_asks_once unit SilentTerm armed_player _ three_frames).
  - reflexivity.
  - reflexivity.
  - vm_compute. reflexivity.
Defined.

Lemma blank_screen_ok : screen_ok blank_screen_player.
Proof.
  repeat split; repeat constructor.
Qed.

Lemma observe_keeps_screen_witness :
  let p' := ok_or (@_observe unit SilentTerm blank_screen_player (u "@"))
                  blank_screen_player in
  screen_ok p' /\ shape (glyphs p') = shape (glyphs blank_screen_player).
Proof.
  cbv zeta.
  apply (@observe_keeps_screen unit SilentTerm blank_screen_player _ (u "@")).
  - exact blank_screen_ok.
  - vm_compute. reflexivity.
Defined.

Lemma observe_needs_24_rows_witness :
  @_observe unit SilentTerm (play_init (10%nat, 80%nat) tt) (u "@")
  <> Ok fresh_player.
Proof.
  apply (@observe_needs_24_rows unit SilentTerm).
  simpl. lia.
Defined.

Lemma glyphs_mirror_the_terminal_witness :
  let p := play_init (24%nat, 80%nat) guard_picture in
  let p' := ok_or (@_parse_glyphs _ PictureTerm p (u "@")) p in
  _term p' = guard_picture /\
  cursor p' = Some (1, 0) /\
  forall y, (y < 24)%nat ->
    nth_error (cells (glyphs p')) y =
    Some (row_values 0 80
            (map glyph_code
                 (@get_tiles _ PictureTerm guard_picture (80 * y) (80 * (y + 1))))).
Proof.
  cbv zeta.
  apply (@glyphs_mirror_the_terminal _ PictureTerm
           (play_init (24%nat, 80%nat) guard_picture) _ (u "@")).
  - reflexivity.
  - vm_compute. reflexivity.
Defined.

Lemma need_inventory_after_parse_witness :
  _need_inventory (ok_or (_parse_inventory fresh_player weapons_page) fresh_player)
  = negb (existsb (fun k => find (category_name k) weapons_page >? 0)
                  CATEGORIES).
Proof.
  apply (need_inventory_after_parse fresh_player _ weapons_page).
  vm_compute. reflexivity.
Defined.

Lemma parse_inventory_has_every_category_witness :
  exists cs,
    dict_get category_eqb Gems
      (inventory (ok_or (_parse_inventory fresh_player weapons_page)
                        fresh_player)) = Some cs.
Proof.
  apply (parse_inventory_has_every_category fresh_player _ weapons_page Gems).
  vm_compute. reflexivity.
Defined.

Lemma parse_inventory_keeps_slots_witness :
  exists cs',
    dict_get category_eqb Weapons
      (inventory (ok_or (_parse_inventory armed_player armor_page)
                        armed_player)) = Some cs' /\
    slots_kept [(u "a", new_item Weapons (u "a dagger"))] cs' /\
    (find (category_name Weapons) armor_page <= 0 ->
     cs' = [(u "a", new_item Weapons (u "a dagger"))]).
Proof.
  apply (parse_inventory_keeps_slots armed_player _ armor_page Weapons).
  - vm_compute. reflexivity.
  - reflexivity.
Defined.

Lemma parse_stats_values_witness :
  let p' := ok_or (_parse_stats status_screen_player) status_screen_player in
  stats p' = stats status_screen_player \/
  (map fst (stats p') = stats_keys /\
   Forall (fun kv => coerced (snd kv)) (stats p')).
Proof.
  cbv zeta. apply (parse_stats_values status_screen_player).
  vm_compute. reflexivity.
Defined.

Lemma parse_attributes_values_witness :
  let p' := ok_or (_parse_attributes status_screen_player)
                  status_screen_player in
  attributes p' = attributes status_screen_player \/
  exists d, attributes p' = Some d /\
            map fst d = attributes_keys /\
            Forall (fun kv => is_text (snd kv)) d.
Proof.
  cbv zeta. apply (parse_attributes_values status_screen_player).
  vm_compute. reflexivity.
Defined.

Lemma charges_need_leading_parenthesis_witness :
  charges digging_wand = Ok (None, None).
Proof.
  apply (charges_need_leading_parenthesis digging_wand). reflexivity.
Defined.

Lemma duplicates_value_witness : duplicates long_swords = Ok 2.
Proof.
  apply (duplicates_value long_swords). reflexivity.
Defined.

Lemma planes_keep_the_configured_shape_witness :
  let p' := loop_player (@copy_loop unit (RandomMover unit) SilentTerm
                           fresh_player three_frames) in
  screen_ok p' /\ shape (glyphs p') = (40%nat, 120%nat).
Proof.
  cbv zeta.
  apply (@planes_keep_the_configured_shape unit (RandomMover unit) SilentTerm
           40 120 tt three_frames _
           (loop_commands (@copy_loop unit (RandomMover unit) SilentTerm
                             fresh_player three_frames))).
  vm_compute. reflexivity.
Defined.

Lemma items_are_filed_under_their_class_witness :
  let p' := loop_player (@copy_loop unit (RandomMover unit) SilentTerm
                           fresh_player three_frames) in
  inventory_classed (inventory p') /\
  forall weapons letter it,
    dict_get category_eqb Weapons (inventory p') = Some weapons ->
    dict_get str_eqb letter weapons = Some it ->
    exists o, is_wielded it = Ok o.
Proof.
  cbv zeta.
  apply (@items_are_filed_under_their_class unit (RandomMover unit) SilentTerm
           (40%nat, 120%nat) tt three_frames _
           (loop_commands (@copy_loop unit (RandomMover unit) SilentTerm
                             fresh_player three_frames))).
  vm_compute. reflexivity.
Defined.

Lemma parse_inventory_twice_witness :
  let p' := ok_or (_parse_inventory fresh_player weapons_page) fresh_player in
  _parse_inventory p' weapons_page = Ok p'.
Proof.
  cbv zeta.
  apply (parse_inventory_twice fresh_player _ weapons_page).
  vm_compute. reflexivity.
Defined.

Lemma weapon_flags_are_substring_tests_witness :
  exists w a q,
    is_wielded long_swords = Ok w /\ is_alternate long_swords = Ok a /\
    is_quivered long_swords = Ok q /\
    truthy w = contains (u "(weapon in hand)") (raw long_swords)
               || contains (u "(weapon in hands)") (raw long_swords) /\
    truthy a = contains (u "(alternate weapon; not wielded)")
                        (raw long_swords) /\
    truthy q = contains (u "(in quiver)") (raw long_swords).
Proof.
  apply (weapon_flags_are_substring_tests long_swords). reflexivity.
Defined.

Lemma curse_flags_are_whole_word_tests_witness :
  (truthy (is_cursed long_swords) = true <->
   word_in (u "cursed") (raw long_swords)) /\
  (truthy (is_uncursed long_swords) = true <->
   word_in (u "uncursed") (raw long_swords)) /\
  (truthy (is_blessed long_swords) = true <->
   word_in (u "blessed") (raw long_swords)).
Proof.
  apply (curse_flags_are_whole_word_tests long_swords). reflexivity.
Defined.
